(** * Stop-and-search collection script: a shallow embedding

    The development follows [src/data_collection_script.py]:
    [parse_date], [fetch_available_dates], [fetch_stops_data], [save_data],
    [print_summary] and [main].

    Values exchanged with the police.uk API are schema-less JSON, so they are
    modelled by one tagged type [json]; the Python operations the script
    applies to them (subscript, [.get], item assignment, iteration, [len],
    truth value) are total functions into [result], raising the exception
    Python raises on a value of the wrong shape.  The network, the clock and
    the file system are outside the program: the answers of the HTTP
    endpoint, the month parser of [datetime] and the presence of the output
    directory are parameters of the model, and what the program does to the
    console and to the disk is recorded as a list of [event]s.  Writing a
    file is one event that carries the records handed to the library
    ([json.dump], [pandas]); the bytes the library produces, and a failure
    of the disk, are not part of the model. *)

From Stdlib Require Import List String Ascii ZArith Lia Bool Arith.
From Stdlib Require Import Sorting.Sorted Sorting.Permutation.
From Stdlib Require Import Floats.SpecFloat.
Import ListNotations.
Local Open Scope string_scope.
Local Open Scope list_scope.

Set Warnings "-register-all".

(** ** Values *)

(** What [response.json()] can return.  A Python [str] is a [string], one
    character per element, compared character by character as Python
    compares code points; a [dict] is an association list in insertion
    order (the order [json.dump] and iteration use); an [int] is unbounded;
    a [float] is kept as its IEEE-754 datum, which the script never
    computes with. *)
Inductive json : Type :=
| JNull
| JBool (b : bool)
| JInt (n : Z)
| JFloat (f : spec_float)
| JStr (s : string)
| JArr (items : list json)
| JObj (fields : list (string * json)).

(** The exceptions that can reach the script. [SystemExit] is the only one
    that [except Exception] does not catch. [Unmodelled] marks behaviour
    outside the modelled fragment: [sorted] on dates that are not all
    strings. *)
Inductive exn : Type :=
| KeyError
| IndexError
| TypeError
| AttributeError
| ValueError
| ArgumentTypeError
| JSONDecodeError
| RequestException
| SystemExit (code : Z)
| Unmodelled.

Inductive result (A : Type) : Type :=
| Ok (a : A)
| Raise (e : exn).
Arguments Ok {A} a.
Arguments Raise {A} e.

Definition is_Exception (e : exn) : bool :=
  match e with
  | SystemExit _ => false
  | _ => true
  end.

(** ** Python dictionaries *)

Module Dict.

Definition t : Type := list (string * json).

(** [d.get(k)]: the value bound to [k], if any. *)
Fixpoint lookup (k : string) (d : t) : option json :=
  match d with
  | [] => None
  | (k', v) :: d' => if String.eqb k k' then Some v else lookup k d'
  end.

(** [d[k] = v]: rebinds [k] where it stands, or adds it at the end. *)
Fixpoint set (k : string) (v : json) (d : t) : t :=
  match d with
  | [] => [(k, v)]
  | (k', v') :: d' =>
      if String.eqb k k' then (k', v) :: d' else (k', v') :: set k v d'
  end.

Definition keys (d : t) : list string := map fst d.

End Dict.

(** ** Python operations on JSON values *)

(** [bool(v)]. *)
Definition truthy (v : json) : bool :=
  match v with
  | JNull => false
  | JBool b => b
  | JInt n => negb (Z.eqb n 0)
  | JFloat (S754_zero _) => false
  | JFloat _ => true
  | JStr s => negb (String.eqb s "")
  | JArr items => match items with [] => false | _ => true end
  | JObj fields => match fields with [] => false | _ => true end
  end.

(** [v[k]] for a string key [k]. *)
Definition getitem (v : json) (k : string) : result json :=
  match v with
  | JObj d => match Dict.lookup k d with
              | Some x => Ok x
              | None => Raise KeyError
              end
  | _ => Raise TypeError
  end.

(** [v.get(k, default)]. Only a [dict] has the method. *)
Definition dict_get (v : json) (k : string) (default : json) : result json :=
  match v with
  | JObj d => match Dict.lookup k d with
              | Some x => Ok x
              | None => Ok default
              end
  | _ => Raise AttributeError
  end.

(** [v[k] = x] for a string key [k]; the result is the object after the
    assignment. *)
Definition setitem (v : json) (k : string) (x : json) : result json :=
  match v with
  | JObj d => Ok (JObj (Dict.set k x d))
  | _ => Raise TypeError
  end.

Fixpoint chars (s : string) : list json :=
  match s with
  | EmptyString => []
  | String c s' => JStr (String c EmptyString) :: chars s'
  end.

(** The items [for x in v] visits. *)
Definition iter (v : json) : result (list json) :=
  match v with
  | JArr items => Ok items
  | JObj d => Ok (map JStr (Dict.keys d))
  | JStr s => Ok (chars s)
  | _ => Raise TypeError
  end.

(** [len(v)]. *)
Definition len (v : json) : result nat :=
  match v with
  | JArr items => Ok (List.length items)
  | JObj d => Ok (List.length d)
  | JStr s => Ok (String.length s)
  | _ => Raise TypeError
  end.

(** ** Dates *)

(** [datetime.strptime(_, "%Y-%m")] leaves every field below the month at
    its default, so a parsed month is a year and a month. *)
Record datetime : Type := mkDate { year : Z; month : Z }.

(** [a < b] on [datetime]. *)
Definition dt_ltb (a b : datetime) : bool :=
  (year a <? year b)%Z || ((year a =? year b)%Z && (month a <? month b)%Z).

(** [a <= b], chronologically. *)
Definition dt_leb (a b : datetime) : bool :=
  (year a <? year b)%Z || ((year a =? year b)%Z && (month a <=? month b)%Z).

(** ** The outside world *)

(** What one HTTP request gives: [requests.get] raises, or it returns a
    response with a status code whose [.json()] is a value or raises. *)
Inductive outcome : Type :=
| TransportError
| Response (status_code : Z) (body : option json).

(** Text interpolated in a printed line. [Stamp d] is [d.strftime('%Y-%m')]
    and [Columns rs] the number of columns of [pd.json_normalize(rs)]. *)
Inductive piece : Type :=
| Lit (s : string)
| Val (v : json)
| Num (n : nat)
| Code (status_code : Z)
| Stamp (d : datetime)
| Exn (e : exn)
| Columns (records : list json).

(** What the program does to its environment, in order. [Usage] is the
    message [parser.error] writes before it exits; [Sleep] is
    [time.sleep(0.3)]; the three writes are [json.dump], [to_csv] and
    [to_parquet] of the records. *)
Inductive event : Type :=
| Print (line : list piece)
| Usage (message : string)
| Sleep
| MakeDirs (path : string)
| WriteJson (path : string) (records : list json)
| WriteCsv (path : string) (records : list json)
| WriteParquet (path : string) (records : list json).

Definition is_console (ev : event) : bool :=
  match ev with
  | Print _ | Usage _ | Sleep => true
  | _ => false
  end.

(** ** A monad for statements

    A statement runs from a state and ends normally or by an exception; the
    state it has reached is kept in both cases, as a Python [except] block
    sees every assignment made before the [raise]. *)
Definition M (S A : Type) : Type := S -> S * result A.

Definition ret {S A : Type} (a : A) : M S A := fun s => (s, Ok a).

Definition raise {S A : Type} (e : exn) : M S A := fun s => (s, Raise e).

Definition bind {S A B : Type} (c : M S A) (k : A -> M S B) : M S B :=
  fun s =>
    match c s with
    | (s', Ok a) => k a s'
    | (s', Raise e) => (s', Raise e)
    end.

Definition lift {S A : Type} (r : result A) : M S A := fun s => (s, r).

Definition modify {S : Type} (f : S -> S) : M S unit := fun s => (f s, Ok tt).

(** [try: c  except Exception as e: h e]. *)
Definition try_except {S A : Type} (c : M S A) (h : exn -> M S A) : M S A :=
  fun s =>
    match c s with
    | (s', Raise e) => if is_Exception e then h e s' else (s', Raise e)
    | r => r
    end.

Declare Scope py_scope.
Delimit Scope py_scope with py.
Notation "x <- c ;; k" := (bind c (fun x => k))
  (at level 61, c at next level, right associativity) : py_scope.
Notation "c ;; k" := (bind c (fun _ => k))
  (at level 61, right associativity) : py_scope.

(** [for x in xs: body x]. *)
Fixpoint for_each {S A : Type} (xs : list A) (body : A -> M S unit) : M S unit :=
  match xs with
  | [] => ret tt
  | x :: xs' => bind (body x) (fun _ => for_each xs' body)
  end.

(** A statement whose locals [L] live next to an outer state [W]. *)
Definition outside {W L A : Type} (c : M W A) : M (W * L) A :=
  fun s => let (w', r) := c (fst s) in ((w', snd s), r).

Definition set_local {W L : Type} (f : L -> L) : M (W * L) unit :=
  modify (fun s => (fst s, f (snd s))).

(** Runs [c] with fresh locals [init]; the locals are lost when [c] raises. *)
Definition scope {W L A : Type} (init : L) (c : M (W * L) A) : M W (L * A) :=
  fun w =>
    match c (w, init) with
    | ((w', l), Ok a) => (w', Ok (l, a))
    | ((w', _), Raise e) => (w', Raise e)
    end.

Local Open Scope py_scope.

(** The state outside the script: how many stop-and-search requests have
    been issued so far, and the events so far. *)
Record world : Type := mkWorld { attempts : nat; out : list event }.

Definition emit (ev : event) : M world unit :=
  modify (fun w => mkWorld (attempts w) (out w ++ [ev])).

Definition nl : string := String "010" EmptyString.

Fixpoint repeat_str (s : string) (n : nat) : string :=
  match n with
  | O => ""
  | S n' => s ++ repeat_str s n'
  end.

(** ['='*60] *)
Definition rule : string := repeat_str "=" 60.

(** [print(...)], and [print(..., end=" ")]. *)
Definition print (line : list piece) : M world unit :=
  emit (Print (line ++ [Lit nl])).

Definition print_end (line : list piece) (e : string) : M world unit :=
  emit (Print (line ++ [Lit e])).

(** A statement is quiet when all it adds to the events are console lines
    and pauses: it creates no directory and writes no file. *)
Definition quiet {S A : Type} (o : S -> list event) (c : M S A) : Prop :=
  forall s, exists evs,
    o (fst (c s)) = o s ++ evs /\ forallb is_console evs = true.

(** ** Sorting strings, as [sorted] does on a list of [str] *)

(** The order [sorted] uses on strings: character by character. *)
Definition str_le (a b : string) : Prop := String.leb a b = true.

Fixpoint insert_sorted (x : string) (l : list string) : list string :=
  match l with
  | [] => [x]
  | y :: l' => if String.leb x y then x :: l else y :: insert_sorted x l'
  end.

Definition sort_strings (l : list string) : list string :=
  fold_right insert_sorted [] l.

Fixpoint strings_of (vs : list json) : option (list string) :=
  match vs with
  | [] => Some []
  | JStr s :: vs' => option_map (cons s) (strings_of vs')
  | _ :: _ => None
  end.

(** [sorted(vs)], modelled for a list of strings. *)
Definition sorted (vs : list json) : result (list string) :=
  match strings_of vs with
  | Some ss => Ok (sort_strings ss)
  | None => Raise Unmodelled
  end.

(** [[f x for x in xs]] *)
Fixpoint list_comp {A B : Type} (f : A -> result B) (xs : list A) : result (list B) :=
  match xs with
  | [] => Ok []
  | x :: xs' =>
      match f x with
      | Raise e => Raise e
      | Ok y => match list_comp f xs' with
                | Raise e => Raise e
                | Ok ys => Ok (y :: ys)
                end
      end
  end.

(** [os.path.join(a, b)] as [posixpath] defines it. *)
Definition ends_with_sep (a : string) : bool :=
  match String.get (String.length a - 1) a with
  | Some c => Ascii.eqb c "/"
  | None => false
  end.

Definition path_join (a b : string) : string :=
  if String.prefix "/" b then b
  else if (a =? "") || ends_with_sep a then a ++ b
  else a ++ "/" ++ b.

(** ** Command line *)

Inductive format : Type := FmtJson | FmtCsv | FmtParquet | FmtAll.

(** The namespace [parser.parse_args()] returns. *)
Record args : Type :=
  mkArgs { arg_format : format; arg_start : option string; arg_end : option string }.

(** The state a run starts from. *)
Definition start : world := mkWorld 0 [].

(** A month parser for ASCII input, used in the examples: four digits, a
    dash and a month from [1] to [12] written with one or two digits. *)
Definition digit (c : ascii) : option Z :=
  let n := Z.of_nat (nat_of_ascii c) in
  if ((48 <=? n) && (n <=? 57))%Z then Some (n - 48)%Z else None.

Definition strptime_digits (s : string) : option datetime :=
  match s with
  | String a (String b (String c (String d (String "-" rest)))) =>
      match digit a, digit b, digit c, digit d with
      | Some a, Some b, Some c, Some d =>
          let y := (1000 * a + 100 * b + 10 * c + d)%Z in
          match rest with
          | String m EmptyString =>
              match digit m with
              | Some m => if ((1 <=? m) && (1 <=? y))%Z then Some (mkDate y m) else None
              | None => None
              end
          | String m1 (String m2 EmptyString) =>
              match digit m1, digit m2 with
              | Some m1, Some m2 =>
                  let m := (10 * m1 + m2)%Z in
                  if ((1 <=? m) && (m <=? 12) && (1 <=? y))%Z
                  then Some (mkDate y m) else None
              | _, _ => None
              end
          | _ => None
          end
      | _, _, _, _ => None
      end
  | _ => None
  end.

(** ** The script *)

Section Script.

(** [datetime.strptime(s, "%Y-%m")] on a string: the month, or nothing
    where Python raises [ValueError]. *)
Variable strptime_Ym : string -> option datetime.

(** The answer to [GET /crimes-street-dates]. *)
Variable http_dates : outcome.

(** The answer to the [n]-th [GET /stops-force] request of the run, given
    its [force] and [date] parameters. *)
Variable http_stops : nat -> json -> json -> outcome.

(** [os.path.exists("data/stop_search_data")] when [main] asks. *)
Variable output_dir_exists : bool.

Definition strptime (v : json) : result datetime :=
  match v with
  | JStr s => match strptime_Ym s with
              | Some d => Ok d
              | None => Raise ValueError
              end
  | _ => Raise TypeError
  end.

Definition parse_date (date_string : string) : result datetime :=
  match strptime (JStr date_string) with
  | Raise ValueError => Raise ArgumentTypeError
  | r => r
  end.

(** *** fetch_available_dates *)

(** [start_date and month_date < start_date] *)
Definition before_start (start_date : option datetime) (month_date : datetime) : bool :=
  match start_date with
  | Some s => dt_ltb month_date s
  | None => false
  end.

(** [end_date and month_date > end_date] *)
Definition after_end (end_date : option datetime) (month_date : datetime) : bool :=
  match end_date with
  | Some e => dt_ltb e month_date
  | None => false
  end.

(** The body of the filtering loop; its state is [filtered_data]. *)
Definition keep_month (start_date end_date : option datetime) (month_data : json)
  : M (list json) unit :=
  d <- lift (getitem month_data "date") ;;
  month_date <- lift (strptime d) ;;
  if before_start start_date month_date then ret tt
  else if after_end end_date month_date then ret tt
  else modify (fun filtered_data => filtered_data ++ [month_data]).

Definition response_json (body : option json) : result json :=
  match body with
  | Some v => Ok v
  | None => Raise JSONDecodeError
  end.

Definition is_some {A : Type} (o : option A) : bool :=
  match o with Some _ => true | None => false end.

Definition fetch_available_dates (start_date end_date : option datetime)
  : M world json :=
  print [Lit "Obtaining available dates and forces..."] ;;
  available_data <-
    lift match http_dates with
         | TransportError => Raise RequestException
         | Response status_code body =>
             if (status_code =? 200)%Z then response_json body else Ok (JArr [])
         end ;;
  available_data <-
    (if is_some start_date || is_some end_date then
       months <- lift (iter available_data) ;;
       filtered <- (fun w =>
                      let (filtered_data, r) :=
                        for_each months (keep_month start_date end_date) [] in
                      (w, match r with
                          | Ok _ => Ok filtered_data
                          | Raise e => Raise e
                          end)) ;;
       match start_date, end_date with
       | Some s, Some e =>
           print [Lit "Filtering data between "; Stamp s; Lit " and "; Stamp e]
       | Some s, None =>
           print [Lit "Filtering data from "; Stamp s; Lit " onwards"]
       | None, Some e =>
           print [Lit "Filtering data until "; Stamp e]
       | None, None => ret tt
       end ;;
       ret (JArr filtered)
     else ret available_data) ;;
  n <- lift (len available_data) ;;
  print [Lit "Found data for "; Num n; Lit " months"; Lit nl] ;;
  ret available_data.

(** *** fetch_stops_data *)

Record locals : Type :=
  mkLocals { all_records : list json; total_records : nat; total_requests : nat }.

(** [requests.get(f"{BASE_URL}/stops-force", params=...)]: the response's
    status code and body, or the exception the transport raises. *)
Definition requests_get_stops (force_id date : json) : M world (Z * option json) :=
  fun w =>
    let w' := mkWorld (S (attempts w)) (out w) in
    match http_stops (attempts w) force_id date with
    | TransportError => (w', Raise RequestException)
    | Response status_code body => (w', Ok (status_code, body))
    end.

(** The body of [for record in stops]. *)
Definition tag_record (date force_id record : json) : M (world * locals) unit :=
  record <- lift (setitem record "date" date) ;;
  record <- lift (setitem record "force_id" force_id) ;;
  set_local (fun l =>
    mkLocals (all_records l ++ [record]) (total_records l) (total_requests l)).

(** The body of [for force_id in forces]. *)
Definition fetch_force (date force_id : json) : M (world * locals) unit :=
  outside (print_end [Lit "  "; Val force_id; Lit "..."] " ") ;;
  try_except
    (response <- outside (requests_get_stops force_id date) ;;
     set_local (fun l =>
       mkLocals (all_records l) (total_records l) (total_requests l + 1)) ;;
     if (fst response =? 200)%Z then
       stops <- lift (response_json (snd response)) ;;
       if truthy stops then
         records <- lift (iter stops) ;;
         for_each records (tag_record date force_id) ;;
         n <- lift (len stops) ;;
         set_local (fun l =>
           mkLocals (all_records l) (total_records l + n) (total_requests l)) ;;
         outside (print [Lit "✓ "; Num n; Lit " records"])
       else outside (print [Lit "○ No records"])
     else outside (print [Lit "✗ Error "; Code (fst response)]))
    (fun e => outside (print [Lit "✗ Exception: "; Exn e])) ;;
  outside (emit Sleep).

(** The body of [for month_data in available_data]. *)
Definition fetch_month (month_data : json) : M (world * locals) unit :=
  date <- lift (getitem month_data "date") ;;
  forces <- lift (dict_get month_data "stop-and-search" (JArr [])) ;;
  if negb (truthy forces) then
    outside (print [Lit "Date "; Val date; Lit ": No stop-and-search data available"])
  else
    outside (print [Lit nl; Lit rule]) ;;
    outside (print [Lit "Processing date: "; Val date]) ;;
    n <- lift (len forces) ;;
    outside (print [Lit "Forces with data: "; Num n]) ;;
    outside (print [Lit rule]) ;;
    force_ids <- lift (iter forces) ;;
    for_each force_ids (fetch_force date).

Definition fetch_stops_data (available_data : json)
  : M world (list json * nat * nat) :=
  r <- scope (mkLocals [] 0 0)
         (months <- lift (iter available_data) ;;
          for_each months fetch_month) ;;
  ret (all_records (fst r), total_records (fst r), total_requests (fst r)).

(** *** save_data *)

Definition save_data (all_records : list json) (output_base : string)
    (save_json save_csv save_parquet : bool) : M world (list string) :=
  print [Lit nl; Lit rule] ;;
  print [Lit "Processing and saving data..."] ;;
  print [Lit rule] ;;
  saved_json <-
    (if save_json then
       let output_file := (output_base ++ ".json")%string in
       emit (WriteJson output_file all_records) ;;
       print [Lit "✓ JSON saved: "; Lit output_file] ;;
       ret [output_file]
     else ret []) ;;
  saved_table <-
    (if save_csv || save_parquet then
       saved_csv <-
         (if save_csv then
            let output_file := (output_base ++ ".csv")%string in
            emit (WriteCsv output_file all_records) ;;
            print [Lit "✓ CSV saved: "; Lit output_file; Lit " (";
                   Num (List.length all_records); Lit " rows, ";
                   Columns all_records; Lit " columns)"] ;;
            ret [output_file]
          else ret []) ;;
       saved_parquet <-
         (if save_parquet then
            let output_file := (output_base ++ ".parquet")%string in
            emit (WriteParquet output_file all_records) ;;
            print [Lit "✓ Parquet saved: "; Lit output_file] ;;
            ret [output_file]
          else ret []) ;;
       ret (saved_csv ++ saved_parquet)
     else ret []) ;;
  ret (saved_json ++ saved_table).

(** *** print_summary *)

Definition print_summary (available_data : json) (total_requests total_records : nat)
    (saved_files : list string) : M world unit :=
  print [Lit nl; Lit rule] ;;
  print [Lit "FINAL SUMMARY:"] ;;
  print [Lit rule] ;;
  n <- lift (len available_data) ;;
  print [Lit "Processed dates: "; Num n] ;;
  print [Lit "Total requests made: "; Num total_requests] ;;
  print [Lit "Total records obtained: "; Num total_records] ;;
  print [Lit nl; Lit "Generated files:"] ;;
  for_each saved_files (fun file => print [Lit "  - "; Lit file]) ;;
  print [Lit rule].

(** *** main *)

(** [parse_date(s) if s else None] *)
Definition optional_date (s : option string) : result (option datetime) :=
  match s with
  | Some s =>
      if truthy (JStr s) then
        match parse_date s with
        | Ok d => Ok (Some d)
        | Raise e => Raise e
        end
      else Ok None
  | None => Ok None
  end.

(** [start_date and end_date and start_date > end_date] *)
Definition start_after_end (start_date end_date : option datetime) : bool :=
  match start_date, end_date with
  | Some s, Some e => dt_ltb e s
  | _, _ => false
  end.

Definition in_formats (f : format) (fs : list format) : bool :=
  existsb (fun g => match f, g with
                    | FmtJson, FmtJson | FmtCsv, FmtCsv
                    | FmtParquet, FmtParquet | FmtAll, FmtAll => true
                    | _, _ => false
                    end) fs.

(** [l[0]] and [l[-1]] *)
Definition first_item (l : list string) : result string :=
  match l with
  | x :: _ => Ok x
  | [] => Raise IndexError
  end.

Definition last_item (l : list string) : result string := first_item (rev l).

(** Lines 218 to 223: the name of the output files, without extension. *)
Definition output_filename (available_data : json) : result string :=
  match iter available_data with
  | Raise e => Raise e
  | Ok months =>
      match list_comp (fun d => getitem d "date") months with
      | Raise e => Raise e
      | Ok dates =>
          match sorted dates with
          | Raise e => Raise e
          | Ok dates_found =>
              match first_item dates_found with
              | Raise e => Raise e
              | Ok file_start_date =>
                  match last_item dates_found with
                  | Raise e => Raise e
                  | Ok file_final_date =>
                      Ok ("ssd_" ++ file_start_date ++ "-" ++ file_final_date)%string
                  end
              end
          end
      end
  end.

(** The world after lines 211 to 214 of [main]. *)
Definition after_makedirs (w : world) : world :=
  if output_dir_exists then w
  else mkWorld (attempts w)
         (out w ++ [MakeDirs "data/stop_search_data";
                    Print [Lit nl; Lit "Created directory: ";
                           Lit "data/stop_search_data"; Lit nl]]).

Definition main (a : args) : M world unit :=
  start_date <- lift (optional_date (arg_start a)) ;;
  end_date <- lift (optional_date (arg_end a)) ;;
  (if start_after_end start_date end_date then
     emit (Usage "La fecha de inicio no puede ser posterior a la fecha de fin") ;;
     raise (SystemExit 2)
   else ret tt) ;;
  let save_json := in_formats (arg_format a) [FmtJson; FmtAll] in
  let save_csv := in_formats (arg_format a) [FmtCsv; FmtAll] in
  let save_parquet := in_formats (arg_format a) [FmtParquet; FmtAll] in
  available_data <- fetch_available_dates start_date end_date ;;
  if negb (truthy available_data) then
    print [Lit "No hay datos disponibles para el rango de fechas especificado"]
  else
    fetched <- fetch_stops_data available_data ;;
    let '(all_records, total_records, total_requests) := fetched in
    if negb (truthy (JArr all_records)) then
      print [Lit "No se obtuvieron registros"]
    else
      let output_dir := path_join "data" "stop_search_data" in
      (if negb output_dir_exists then
         emit (MakeDirs output_dir) ;;
         print [Lit nl; Lit "Created directory: "; Lit output_dir]
       else ret tt) ;;
      filename <- lift (output_filename available_data) ;;
      let output_path := path_join output_dir filename in
      saved_files <- save_data all_records output_path save_json save_csv save_parquet ;;
      print_summary available_data total_requests total_records saved_files.

(** *** What a run requests and collects

    The vocabulary in which the properties of [fetch_stops_data] are
    stated. *)

(** A month of the catalog read as the script reads it: its ['date'] and
    the array under ['stop-and-search'] (empty when the key is absent). *)
Definition month_entry (month_data : json) (entry : json * list json) : Prop :=
  getitem month_data "date" = Ok (fst entry) /\
  dict_get month_data "stop-and-search" (JArr []) = Ok (JArr (snd entry)).

(** The (month, force) pairs of a catalog: months in catalog order, the
    forces of a month in the order of its list. *)
Definition pairs (catalog : list (json * list json)) : list (json * json) :=
  flat_map (fun entry => map (pair (fst entry)) (snd entry)) catalog.

Record request : Type :=
  mkRequest { req_date : json; req_force : json; req_outcome : outcome }.

(** The requests issued for the pairs [ps] when [n] requests were issued
    before, each with the answer of the transport. *)
Fixpoint requests_from (n : nat) (ps : list (json * json)) : list request :=
  match ps with
  | [] => []
  | (date, force_id) :: rest =>
      mkRequest date force_id (http_stops n force_id date)
        :: requests_from (S n) rest
  end.

(** [requests.get] returned a response, whatever its status. *)
Definition answered (r : request) : bool :=
  match req_outcome r with
  | Response _ _ => true
  | TransportError => false
  end.

(** The response has status 200. *)
Definition succeeded (r : request) : bool :=
  match req_outcome r with
  | Response status_code _ => (status_code =? 200)%Z
  | TransportError => false
  end.

(** The items of the array a request with status 200 returned. *)
Definition body_items (r : request) : list json :=
  match req_outcome r with
  | Response status_code (Some (JArr stops)) =>
      if (status_code =? 200)%Z then stops else []
  | _ => []
  end.

Definition is_object (v : json) : bool :=
  match v with
  | JObj _ => true
  | _ => false
  end.

Fixpoint leading_objects (items : list json) : list Dict.t :=
  match items with
  | JObj d :: rest => d :: leading_objects rest
  | _ => []
  end.

(** A record's fields after the two assignments of the tagging loop. *)
Definition tag_fields (date force_id : json) (d : Dict.t) : Dict.t :=
  Dict.set "force_id" force_id (Dict.set "date" date d).

(** The records one request adds to [all_records], in response order. *)
Definition collected (r : request) : list json :=
  map (fun d => JObj (tag_fields (req_date r) (req_force r) d))
      (leading_objects (body_items r)).

(** What one request adds to [total_records]. *)
Definition counted (r : request) : nat :=
  if forallb is_object (body_items r) then List.length (body_items r) else 0.

(** The locals after the requests [rs], starting from [l]. *)
Definition gather (l : locals) (rs : list request) : locals :=
  mkLocals (all_records l ++ flat_map collected rs)
           (total_records l + list_sum (map counted rs))
           (total_requests l + List.length (filter answered rs)).

(** The month of a catalog entry, when it has one that parses. *)
Definition month_of (month_data : json) : option datetime :=
  match getitem month_data "date" with
  | Ok d => match strptime d with
            | Ok m => Some m
            | Raise _ => None
            end
  | Raise _ => None
  end.

(** [start <= month <= end], a missing bound allowing every month. *)
Definition within (start_date end_date : option datetime) (month_data : json) : bool :=
  match start_date with
  | None => true
  | Some s => match month_of month_data with
              | Some m => dt_leb s m
              | None => false
              end
  end
  &&
  match end_date with
  | None => true
  | Some e => match month_of month_data with
              | Some m => dt_leb m e
              | None => false
              end
  end.

(** *** The earlier script, [src/trash/data_collection.py]

    The same requests as [fetch_stops_data], written at module level: no
    bounds, no early exit, JSON and CSV always written. The Parquet write
    is commented out in the source. *)

Definition OUTPUT_JSON : string := "stop_search_data.json".
Definition OUTPUT_CSV : string := "stop_search_data.csv".
Definition OUTPUT_PARQUET : string := "stop_search_data.parquet".

Definition data_collection : M world unit :=
  print [Lit "Obtaining available dates and forces..."] ;;
  available_data <-
    lift match http_dates with
         | TransportError => Raise RequestException
         | Response status_code body =>
             if (status_code =? 200)%Z then response_json body else Ok (JArr [])
         end ;;
  n <- lift (len available_data) ;;
  print [Lit "Found data for "; Num n; Lit " months"; Lit nl] ;;
  fetched <- scope (mkLocals [] 0 0)
               (months <- lift (iter available_data) ;;
                for_each months fetch_month) ;;
  let l := fst fetched in
  print [Lit nl; Lit rule] ;;
  print [Lit "Processing and saving data..."] ;;
  print [Lit rule] ;;
  emit (WriteJson OUTPUT_JSON (all_records l)) ;;
  print [Lit "✓ JSON saved: "; Lit OUTPUT_JSON] ;;
  emit (WriteCsv OUTPUT_CSV (all_records l)) ;;
  print [Lit "✓ CSV saved: "; Lit OUTPUT_CSV; Lit " (";
         Num (List.length (all_records l)); Lit " rows, ";
         Columns (all_records l); Lit " columns)"] ;;
  print [Lit nl; Lit rule] ;;
  print [Lit "FINAL SUMMARY:"] ;;
  print [Lit rule] ;;
  n <- lift (len available_data) ;;
  print [Lit "Processed dates: "; Num n] ;;
  print [Lit "Total requests made: "; Num (total_requests l)] ;;
  print [Lit "Total records obtained: "; Num (total_records l)] ;;
  print [Lit nl; Lit "Generated files:"] ;;
  print [Lit "  - JSON:    "; Lit OUTPUT_JSON] ;;
  print [Lit "  - CSV:     "; Lit OUTPUT_CSV] ;;
  print [Lit "  - Parquet: "; Lit OUTPUT_PARQUET] ;;
  print [Lit rule].

End Script.

(** ** Reading a trace *)

(** What a run did to the disk: the events that are not console output. *)
Definition effects (evs : list event) : list event :=
  filter (fun ev => negb (is_console ev)) evs.

Definition is_sleep (ev : event) : bool :=
  match ev with
  | Sleep => true
  | _ => false
  end.

(** The number of [time.sleep(0.3)] in a trace. *)
Definition pauses (evs : list event) : nat := List.length (filter is_sleep evs).

(** A statement adds to the events only events that satisfy [P]. *)
Definition adds {S A : Type} (P : event -> bool) (o : S -> list event)
    (c : M S A) : Prop :=
  forall s, exists evs, o (fst (c s)) = o s ++ evs /\ forallb P evs = true.

(** A statement that ends normally with [a], having added exactly the events
    [evs] and issued no request. *)
Definition runs {A : Type} (c : M world A) (a : A) (evs : list event) : Prop :=
  forall w, c w = (mkWorld (attempts w) (out w ++ evs), Ok a).

(** A write of at least one record to a file of the output directory named
    [ssd_...]; every other event passes. *)
Definition sound_write (ev : event) : bool :=
  match ev with
  | WriteJson path records | WriteCsv path records | WriteParquet path records =>
      String.prefix "data/stop_search_data/ssd_" path
      && match records with [] => false | _ => true end
  | _ => true
  end.

(** ** A small run, used to exercise the statements *)

Definition example_catalog : list (json * list json) :=
  [(JStr "2023-01", [JStr "metropolitan"; JStr "kent"]); (JStr "2023-02", [])].

Definition example_months : list json :=
  [JObj [("date", JStr "2023-01");
         ("stop-and-search", JArr [JStr "metropolitan"; JStr "kent"])];
   JObj [("date", JStr "2023-02"); ("stop-and-search", JArr [])]].

Definition example_stops (n : nat) (force_id date : json) : outcome :=
  match n with
  | 0 => Response 200
           (Some (JArr [JObj [("type", JStr "Person search"); ("date", JStr "old")];
                        JObj [("outcome", JNull)]]))
  | _ => TransportError
  end.

Definition no_transport (n : nat) (force_id date : json) : outcome := TransportError.

Definition example_dates : outcome := Response 200 (Some (JArr example_months)).

(** A catalog with one month that has forces but no date. *)
Definition undated_months : list json :=
  [JObj [("stop-and-search", JArr [JStr "kent"])]].

Definition undated_dates : outcome := Response 200 (Some (JArr undated_months)).

Definition no_bounds (f : format) : args := mkArgs f None None.

(** * Properties *)

(** ** Order on strings and [sorted] *)

Lemma ascii_compare_refl (c : ascii) : Ascii.compare c c = Eq.
Proof. unfold Ascii.compare. apply N.compare_refl. Qed.

Lemma str_le_refl (a : string) : str_le a a.
Proof.
  unfold str_le, String.leb.
  induction a as [|c a IH]; simpl; [reflexivity|].
  now rewrite ascii_compare_refl.
Qed.

Lemma str_le_trans (a b c : string) : str_le a b -> str_le b c -> str_le a c.
Proof.
  unfold str_le, String.leb. revert b c.
  induction a as [|x a IH]; intros [|y b] [|z c]; simpl; try easy.
  unfold Ascii.compare.
  destruct (N.compare_spec (N_of_ascii x) (N_of_ascii y)) as [Hxy|Hxy|Hxy];
    destruct (N.compare_spec (N_of_ascii y) (N_of_ascii z)) as [Hyz|Hyz|Hyz];
    try easy.
  - rewrite Hxy, Hyz, N.compare_refl. apply IH.
  - rewrite Hxy. intros _ _.
    now destruct (N.compare_spec (N_of_ascii y) (N_of_ascii z)); try lia.
  - rewrite <- Hyz. intros _ _.
    now destruct (N.compare_spec (N_of_ascii x) (N_of_ascii y)); try lia.
  - intros _ _.
    now destruct (N.compare_spec (N_of_ascii x) (N_of_ascii z)); try lia.
Qed.

Lemma str_le_total (a b : string) : str_le a b \/ str_le b a.
Proof. apply String.leb_total. Qed.

Lemma insert_sorted_perm (x : string) (l : list string) :
  Permutation (x :: l) (insert_sorted x l).
Proof.
  induction l as [|y l IH]; simpl; [reflexivity|].
  destruct (String.leb x y); [reflexivity|].
  rewrite perm_swap. now constructor.
Qed.

Lemma sort_strings_perm (l : list string) : Permutation l (sort_strings l).
Proof.
  induction l as [|x l IH]; simpl; [constructor|].
  rewrite <- insert_sorted_perm. now constructor.
Qed.

Lemma insert_sorted_Forall (P : string -> Prop) (x : string) (l : list string) :
  P x -> Forall P l -> Forall P (insert_sorted x l).
Proof.
  intros Hx Hl. eapply Permutation_Forall; [apply insert_sorted_perm|].
  now constructor.
Qed.

Lemma insert_sorted_sorted (x : string) (l : list string) :
  StronglySorted str_le l -> StronglySorted str_le (insert_sorted x l).
Proof.
  induction 1 as [|y l Hl IH Hy]; simpl.
  - repeat constructor.
  - destruct (String.leb x y) eqn:E.
    + constructor; [now constructor|].
      constructor; [exact E|].
      eapply Forall_impl; [|exact Hy].
      intros z Hz. eapply str_le_trans; [exact E|exact Hz].
    + constructor; [exact IH|].
      apply insert_sorted_Forall; [|exact Hy].
      destruct (str_le_total x y) as [H|H]; [|exact H].
      unfold str_le in H. congruence.
Qed.

Lemma sort_strings_sorted (l : list string) : StronglySorted str_le (sort_strings l).
Proof.
  induction l as [|x l IH]; simpl; [constructor|].
  now apply insert_sorted_sorted.
Qed.

Lemma sorted_last_is_max (l : list string) (m : string) :
  StronglySorted str_le l -> hd_error (rev l) = Some m ->
  Forall (fun d => str_le d m) l.
Proof.
  induction 1 as [|x l Hl IH Hx]; intros Hm; [constructor|].
  simpl in Hm. destruct (rev l) as [|y r] eqn:Er.
  - simpl in Hm. injection Hm as <-.
    apply (f_equal (@rev string)) in Er. rewrite rev_involutive in Er.
    subst l. constructor; [apply str_le_refl|constructor].
  - simpl in Hm. injection Hm as <-.
    specialize (IH eq_refl).
    constructor; [|exact IH].
    assert (In y l) as Hin.
    { apply in_rev. rewrite Er. now left. }
    rewrite Forall_forall in Hx. now apply Hx.
Qed.

(** The first and the last element of [sort_strings l] are the least and
    the greatest string of [l]. *)
Lemma sort_strings_bounds (l : list string) (lo hi : string) :
  hd_error (sort_strings l) = Some lo ->
  hd_error (rev (sort_strings l)) = Some hi ->
  In lo l /\ In hi l /\ forall d, In d l -> str_le lo d /\ str_le d hi.
Proof.
  intros Hlo Hhi.
  pose proof (sort_strings_sorted l) as Hs.
  pose proof (sort_strings_perm l) as Hp.
  pose proof (sorted_last_is_max _ _ Hs Hhi) as Hmax.
  assert (In lo (sort_strings l)) as Hin_lo.
  { destruct (sort_strings l); [discriminate|]. injection Hlo as <-. now left. }
  assert (In hi (sort_strings l)) as Hin_hi.
  { apply in_rev. destruct (rev (sort_strings l)); [discriminate|].
    injection Hhi as <-. now left. }
  repeat split.
  - eapply Permutation_in; [symmetry; exact Hp|exact Hin_lo].
  - eapply Permutation_in; [symmetry; exact Hp|exact Hin_hi].
  - apply (Permutation_in _ Hp) in H.
    destruct (sort_strings l) as [|y r]; [discriminate|].
    injection Hlo as <-. inversion Hs as [|? ? _ Hy]; subst.
    destruct H as [<-|H]; [apply str_le_refl|].
    rewrite Forall_forall in Hy. now apply Hy.
  - apply (Permutation_in _ Hp) in H.
    rewrite Forall_forall in Hmax. now apply Hmax.
Qed.

(** ** Dictionaries *)

Lemma lookup_set_same (k : string) (v : json) (d : Dict.t) :
  Dict.lookup k (Dict.set k v d) = Some v.
Proof.
  induction d as [|[k' v'] d IH]; simpl.
  - now rewrite String.eqb_refl.
  - destruct (String.eqb k k') eqn:E; simpl; rewrite E; [reflexivity|exact IH].
Qed.

Lemma lookup_set_other (k k' : string) (v : json) (d : Dict.t) :
  k <> k' -> Dict.lookup k' (Dict.set k v d) = Dict.lookup k' d.
Proof.
  intros Hk. induction d as [|[k0 v0] d IH]; simpl.
  - destruct (String.eqb_spec k' k); [congruence|reflexivity].
  - destruct (String.eqb_spec k k0) as [->|Hk0]; simpl.
    + destruct (String.eqb_spec k' k0); [congruence|reflexivity].
    + now rewrite IH.
Qed.

(** Assignment keeps the keys and their order, adding the key at the end
    when it is new. *)
Lemma keys_set (k : string) (v : json) (d : Dict.t) :
  Dict.keys (Dict.set k v d) =
  match Dict.lookup k d with
  | Some _ => Dict.keys d
  | None => Dict.keys d ++ [k]
  end.
Proof.
  unfold Dict.keys. induction d as [|[k' v'] d IH]; simpl; [reflexivity|].
  destruct (String.eqb k k') eqn:E; simpl; [reflexivity|].
  rewrite IH. now destruct (Dict.lookup k d).
Qed.

(** ** What a request contributes *)

Lemma tag_fields_date (date force_id : json) (d : Dict.t) :
  Dict.lookup "date" (tag_fields date force_id d) = Some date.
Proof.
  unfold tag_fields.
  rewrite lookup_set_other by discriminate. apply lookup_set_same.
Qed.

Lemma tag_fields_force (date force_id : json) (d : Dict.t) :
  Dict.lookup "force_id" (tag_fields date force_id d) = Some force_id.
Proof. unfold tag_fields. apply lookup_set_same. Qed.

Lemma tag_fields_other (date force_id : json) (d : Dict.t) (k : string) :
  k <> "date" -> k <> "force_id" ->
  Dict.lookup k (tag_fields date force_id d) = Dict.lookup k d.
Proof.
  intros Hd Hf. unfold tag_fields.
  now rewrite !lookup_set_other by congruence.
Qed.

Lemma lookup_in_keys (k : string) (d : Dict.t) :
  Dict.lookup k d <> None <-> In k (Dict.keys d).
Proof.
  unfold Dict.keys. induction d as [|[k' v] d IH]; simpl; [tauto|].
  destruct (String.eqb_spec k k') as [->|Hk].
  - split; [now left|discriminate].
  - rewrite IH. split; [now right|]. intros [E|H]; [congruence|exact H].
Qed.

Lemma keys_set_in (k0 : string) (v : json) (d : Dict.t) (k : string) :
  In k (Dict.keys (Dict.set k0 v d)) <-> In k (Dict.keys d) \/ k = k0.
Proof.
  rewrite keys_set. destruct (Dict.lookup k0 d) eqn:E.
  - split; [now left|]. intros [H| ->]; [exact H|].
    apply lookup_in_keys. congruence.
  - rewrite in_app_iff. simpl. intuition congruence.
Qed.

Lemma collected_tagged (r : request) (x : json) :
  In x (collected r) ->
  getitem x "date" = Ok (req_date r) /\ getitem x "force_id" = Ok (req_force r).
Proof.
  unfold collected. rewrite in_map_iff. intros (d & <- & _). simpl.
  now rewrite tag_fields_date, tag_fields_force.
Qed.

Lemma leading_objects_map (ds : list Dict.t) : leading_objects (map JObj ds) = ds.
Proof. induction ds as [|d ds IH]; simpl; [reflexivity|now rewrite IH]. Qed.

Lemma all_objects_map (ds : list Dict.t) : forallb is_object (map JObj ds) = true.
Proof. induction ds as [|d ds IH]; simpl; [reflexivity|exact IH]. Qed.

Lemma body_items_failed (r : request) : succeeded r = false -> body_items r = [].
Proof.
  unfold succeeded, body_items. destruct (req_outcome r) as [|status body]; [easy|].
  intros ->. now destruct body as [[]|].
Qed.

Lemma collected_failed (r : request) : succeeded r = false -> collected r = [].
Proof. intros H. unfold collected. now rewrite body_items_failed. Qed.

Lemma counted_failed (r : request) : succeeded r = false -> counted r = 0.
Proof. intros H. unfold counted. now rewrite body_items_failed. Qed.

Lemma collected_succeeded_only (rs : list request) :
  flat_map collected (filter succeeded rs) = flat_map collected rs.
Proof.
  induction rs as [|r rs IH]; simpl; [reflexivity|].
  destruct (succeeded r) eqn:E; simpl; rewrite IH; [reflexivity|].
  now rewrite collected_failed.
Qed.

Lemma counted_succeeded_only (rs : list request) :
  list_sum (map counted (filter succeeded rs)) = list_sum (map counted rs).
Proof.
  induction rs as [|r rs IH]; simpl; [reflexivity|].
  destruct (succeeded r) eqn:E; simpl; rewrite IH; [reflexivity|].
  now rewrite counted_failed.
Qed.

Lemma pairs_length (catalog : list (json * list json)) :
  List.length (pairs catalog) =
  list_sum (map (fun entry => List.length (snd entry)) catalog).
Proof.
  unfold pairs. induction catalog as [|entry catalog IH]; simpl; [reflexivity|].
  now rewrite length_app, length_map, IH.
Qed.

(** ** The request loop of [fetch_stops_data] *)

Section Requests.

Variable http_stops : nat -> json -> json -> outcome.

Lemma gather_nil (l : locals) : gather l [] = l.
Proof.
  destruct l. unfold gather. simpl.
  now rewrite app_nil_r, !Nat.add_0_r.
Qed.

Lemma gather_app (l : locals) (a b : list request) :
  gather (gather l a) b = gather l (a ++ b).
Proof.
  unfold gather. simpl.
  rewrite flat_map_app, map_app, list_sum_app, filter_app, length_app.
  now rewrite app_assoc, !Nat.add_assoc.
Qed.

Lemma requests_from_app (n : nat) (a b : list (json * json)) :
  requests_from http_stops n (a ++ b) =
  requests_from http_stops n a ++ requests_from http_stops (n + List.length a) b.
Proof.
  revert n. induction a as [|[d f] a IH]; intros n; simpl.
  - now rewrite Nat.add_0_r.
  - rewrite IH. now rewrite Nat.add_succ_r.
Qed.

Lemma requests_from_length (n : nat) (ps : list (json * json)) :
  List.length (requests_from http_stops n ps) = List.length ps.
Proof.
  revert n. induction ps as [|[d f] ps IH]; intros n; simpl; [reflexivity|].
  now rewrite IH.
Qed.

(** The tagging loop appends the leading objects of [stops], tagged, and
    stops with [TypeError] at the first item that is not an object. *)
Lemma tag_loop (date force_id : json) (stops : list json) (w : world) (l : locals) :
  for_each stops (tag_record date force_id) (w, l) =
  ((w, mkLocals
         (all_records l ++
          map (fun d => JObj (tag_fields date force_id d)) (leading_objects stops))
         (total_records l) (total_requests l)),
   if forallb is_object stops then Ok tt else Raise TypeError).
Proof.
  revert l. induction stops as [|x stops IH]; intros l.
  - destruct l. simpl. unfold ret. now rewrite app_nil_r.
  - destruct x; simpl;
      try (destruct l; unfold bind, tag_record, bind, lift; simpl;
           now rewrite app_nil_r).
    unfold bind at 1. unfold tag_record, bind, lift, set_local, modify. simpl.
    rewrite IH. simpl. now rewrite <- app_assoc.
Qed.
Ltac run_statements :=
  repeat (unfold bind, lift, set_local, modify, outside, print, emit, ret,
            response_json, iter, len; simpl).

Ltac close_run :=
  run_statements; rewrite ?app_nil_r, ?Nat.add_0_r;
  eexists; split; reflexivity.

Lemma fetch_force_run (date force_id : json) (w : world) (l : locals) :
  exists w',
    fetch_force http_stops date force_id (w, l) =
      ((w', gather l [mkRequest date force_id
                        (http_stops (attempts w) force_id date)]), Ok tt)
    /\ attempts w' = S (attempts w).
Proof.
  unfold fetch_force, gather, collected, counted, answered, body_items.
  unfold bind at 1. unfold outside at 1. simpl.
  unfold bind at 1. unfold try_except.
  unfold bind at 1. unfold outside at 1, requests_get_stops. simpl.
  destruct l as [recs nrec nreq].
  destruct (http_stops (attempts w) force_id date) as [|status body]; simpl;
    [close_run|].
  destruct (status =? 200)%Z eqn:Es; [|destruct body as [[]|]; close_run].
  destruct body as [v|]; [|close_run].
  destruct v as [|b|n|f|s|stops|d].
  - close_run.
  - destruct b; close_run.
  - destruct (n =? 0)%Z eqn:En; run_statements; rewrite En; close_run.
  - destruct f; close_run.
  - destruct s; close_run.
  - destruct stops as [|x stops]; [close_run|].
    remember (x :: stops) as items eqn:Ei.
    assert (truthy (JArr items) = true) as Et by now subst items.
    unfold bind, lift, set_local, modify, response_json. cbn [fst snd iter len].
    rewrite Et, tag_loop. cbn [fst snd all_records total_records total_requests].
    destruct (forallb is_object items); close_run.
  - destruct d as [|[k v] d]; close_run.
Qed.

Lemma forces_run (date : json) (force_ids : list json) (w : world) (l : locals) :
  exists w',
    for_each force_ids (fetch_force http_stops date) (w, l) =
      ((w', gather l (requests_from http_stops (attempts w)
                        (map (pair date) force_ids))), Ok tt)
    /\ attempts w' = attempts w + List.length force_ids.
Proof.
  revert w l. induction force_ids as [|f force_ids IH]; intros w l.
  - exists w. simpl. unfold ret. now rewrite gather_nil, Nat.add_0_r.
  - destruct (fetch_force_run date f w l) as (w1 & E1 & A1).
    destruct (IH w1 (gather l [mkRequest date f
                                 (http_stops (attempts w) f date)]))
      as (w2 & E2 & A2).
    exists w2. simpl. unfold bind. rewrite E1, E2, gather_app, A1. simpl.
    split; [reflexivity|lia].
Qed.

Lemma month_run (month_data date : json) (force_ids : list json)
    (w : world) (l : locals) :
  month_entry month_data (date, force_ids) ->
  exists w',
    fetch_month http_stops month_data (w, l) =
      ((w', gather l (requests_from http_stops (attempts w)
                        (map (pair date) force_ids))), Ok tt)
    /\ attempts w' = attempts w + List.length force_ids.
Proof.
  intros [Hd Hf]. simpl in Hd, Hf.
  unfold fetch_month, bind at 1 2, lift at 1 2. rewrite Hd, Hf.
  destruct force_ids as [|f force_ids].
  - simpl. eexists. unfold outside, print, emit, modify. simpl.
    rewrite gather_nil. split; [reflexivity|simpl; lia].
  - remember (f :: force_ids) as fs eqn:Efs.
    assert (truthy (JArr fs) = true) as Et by now subst fs.
    rewrite Et. cbn [negb].
    unfold bind, outside at 1 2 3 4, print, emit, modify, lift.
    cbn [fst snd len iter].
    match goal with
    | |- context [for_each fs _ (?w0, l)] =>
        destruct (forces_run date fs w0 l) as (w2 & E2 & A2)
    end.
    rewrite E2. exists w2. split; [reflexivity|exact A2].
Qed.

Lemma months_run (months : list json) (catalog : list (json * list json))
    (w : world) (l : locals) :
  Forall2 month_entry months catalog ->
  exists w',
    for_each months (fetch_month http_stops) (w, l) =
      ((w', gather l (requests_from http_stops (attempts w) (pairs catalog))),
       Ok tt)
    /\ attempts w' = attempts w + List.length (pairs catalog).
Proof.
  intros H. revert w l.
  induction H as [|month_data [date force_ids] months catalog Hm _ IH];
    intros w l.
  - exists w. simpl. unfold ret. now rewrite gather_nil, Nat.add_0_r.
  - destruct (month_run month_data date force_ids w l Hm) as (w1 & E1 & A1).
    destruct (IH w1 (gather l (requests_from http_stops (attempts w)
                                 (map (pair date) force_ids))))
      as (w2 & E2 & A2).
    exists w2. simpl. unfold bind. rewrite E1, E2, gather_app.
    unfold pairs in *. simpl.
    rewrite requests_from_app, length_map, length_app, length_map, A1.
    split; [reflexivity|lia].
Qed.

Lemma requests_from_pairs (n : nat) (ps : list (json * json)) :
  map (fun r => (req_date r, req_force r)) (requests_from http_stops n ps) = ps.
Proof.
  revert n. induction ps as [|[d f] ps IH]; intros n; simpl; [reflexivity|].
  now rewrite IH.
Qed.

(** On a catalog whose months are objects with a date and a force list,
    [fetch_stops_data] returns, having issued one request per pair, and
    its three results are those gathered from these requests. *)
Lemma fetch_stops_data_run (months : list json)
    (catalog : list (json * list json)) (w : world) :
  Forall2 month_entry months catalog ->
  exists w',
    fetch_stops_data http_stops (JArr months) w =
      (w', Ok (flat_map collected
                 (requests_from http_stops (attempts w) (pairs catalog)),
               list_sum (map counted
                 (requests_from http_stops (attempts w) (pairs catalog))),
               List.length (filter answered
                 (requests_from http_stops (attempts w) (pairs catalog)))))
    /\ attempts w' = attempts w + List.length (pairs catalog).
Proof.
  intros H.
  destruct (months_run months catalog w (mkLocals [] 0 0) H) as (w' & E & A).
  exists w'. split; [|exact A].
  unfold fetch_stops_data, bind at 1, scope, bind at 1, lift. simpl.
  rewrite E. reflexivity.
Qed.

(** C1 (amended). [total_requests] is the number of (month, force) pairs of
    the catalog whose request returned a response, with a success status
    or not; a pair whose request raised a transport-level exception was
    attempted but is not counted. One request is issued per pair, and a
    month whose force list is empty has no pair. *)
Theorem total_requests_counts_answered (months : list json)
    (catalog : list (json * list json)) (w : world) :
  Forall2 month_entry months catalog ->
  let requests := requests_from http_stops (attempts w) (pairs catalog) in
  exists recs total,
    snd (fetch_stops_data http_stops (JArr months) w) =
      Ok (recs, total, List.length (filter answered requests))
    /\ map (fun r => (req_date r, req_force r)) requests = pairs catalog
    /\ List.length requests =
         list_sum (map (fun entry => List.length (snd entry)) catalog).
Proof.
  intros H requests.
  destruct (fetch_stops_data_run months catalog w H) as (w' & E & _).
  do 2 eexists. rewrite E. split; [reflexivity|]. split.
  - apply requests_from_pairs.
  - unfold requests. rewrite requests_from_length. apply pairs_length.
Qed.

(** C3. Every record [fetch_stops_data] returns has under [date] the
    month and under [force_id] the force of the request that produced it;
    the records are those of the requests in the order of the pairs of
    the catalog (month by month in catalog order, force by force in the
    order of the month's list), and the records of one response keep the
    order of the response. *)
Theorem all_records_tagged_in_order (months : list json)
    (catalog : list (json * list json)) (w : world) :
  Forall2 month_entry months catalog ->
  let requests := requests_from http_stops (attempts w) (pairs catalog) in
  (exists total answers,
      snd (fetch_stops_data http_stops (JArr months) w) =
        Ok (flat_map collected requests, total, answers))
  /\ map (fun r => (req_date r, req_force r)) requests = pairs catalog
  /\ (forall r x, In r requests -> In x (collected r) ->
        getitem x "date" = Ok (req_date r) /\
        getitem x "force_id" = Ok (req_force r))
  /\ (forall r stops, In r requests ->
        req_outcome r = Response 200 (Some (JArr (map JObj stops))) ->
        collected r =
          map (fun d => JObj (tag_fields (req_date r) (req_force r) d)) stops).
Proof.
  intros H requests.
  destruct (fetch_stops_data_run months catalog w H) as (w' & E & _).
  repeat split.
  - do 2 eexists. rewrite E. reflexivity.
  - apply requests_from_pairs.
  - now apply collected_tagged.
  - now apply collected_tagged.
  - intros r stops _ Hr. unfold collected, body_items. rewrite Hr. simpl.
    now rewrite leading_objects_map.
Qed.

(** C5. [total_records] is the sum over the requests of what each one
    counts: the length of the body for a response with status 200 whose
    body is an array of records, and nothing for a request that raised,
    for a response with another status and for an empty body. *)
Theorem total_records_sums_bodies (months : list json)
    (catalog : list (json * list json)) (w : world) :
  Forall2 month_entry months catalog ->
  let requests := requests_from http_stops (attempts w) (pairs catalog) in
  (exists recs answers,
      snd (fetch_stops_data http_stops (JArr months) w) =
        Ok (recs, list_sum (map counted requests), answers))
  /\ (forall r stops,
        req_outcome r = Response 200 (Some (JArr (map JObj stops))) ->
        counted r = List.length stops)
  /\ (forall r, req_outcome r = TransportError -> counted r = 0)
  /\ (forall r status_code body,
        req_outcome r = Response status_code body -> status_code <> 200%Z ->
        counted r = 0)
  /\ (forall r, req_outcome r = Response 200 (Some (JArr [])) -> counted r = 0).
Proof.
  intros H requests.
  destruct (fetch_stops_data_run months catalog w H) as (w' & E & _).
  repeat split.
  - do 2 eexists. rewrite E. reflexivity.
  - intros r stops Hr. unfold counted, body_items. rewrite Hr. simpl.
    now rewrite all_objects_map, length_map.
  - intros r Hr. apply counted_failed. unfold succeeded. now rewrite Hr.
  - intros r status_code body Hr Hs. apply counted_failed.
    unfold succeeded. rewrite Hr. now apply Z.eqb_neq.
  - intros r Hr. unfold counted, body_items. now rewrite Hr.
Qed.

(** C6. Whatever the transport answers, [fetch_stops_data] returns: a
    response with a status other than 200 or a transport-level exception
    is not propagated. Such a request adds no record and no count, every
    pair of the catalog is still requested, and the result is the one
    gathered from the requests with status 200 alone. *)
Theorem failed_requests_are_skipped (months : list json)
    (catalog : list (json * list json)) (w : world) :
  Forall2 month_entry months catalog ->
  let requests := requests_from http_stops (attempts w) (pairs catalog) in
  (exists w' answers,
      fetch_stops_data http_stops (JArr months) w =
        (w', Ok (flat_map collected (filter succeeded requests),
                 list_sum (map counted (filter succeeded requests)),
                 answers))
      /\ attempts w' = attempts w + List.length (pairs catalog))
  /\ (forall r, In r requests -> succeeded r = false ->
        collected r = [] /\ counted r = 0).
Proof.
  intros H requests.
  destruct (fetch_stops_data_run months catalog w H) as (w' & E & A).
  split.
  - exists w'. eexists. split; [|exact A].
    rewrite E, collected_succeeded_only, counted_succeeded_only. reflexivity.
  - intros r _ Hr. split; [now apply collected_failed|now apply counted_failed].
Qed.

(** C9. Tagging a record assigns its keys [date] and [force_id] and
    nothing else: the record appended to [all_records] has the month and
    the force under these two keys, whatever it had there before, every
    other key has the value it had, no other key appears, and the two
    counters and the world are untouched. *)
Theorem tag_record_frame (date force_id : json) (fields : Dict.t)
    (w : world) (l : locals) :
  exists fields',
    tag_record date force_id (JObj fields) (w, l) =
      ((w, mkLocals (all_records l ++ [JObj fields'])
                    (total_records l) (total_requests l)), Ok tt)
    /\ Dict.lookup "date" fields' = Some date
    /\ Dict.lookup "force_id" fields' = Some force_id
    /\ (forall k, k <> "date" -> k <> "force_id" ->
          Dict.lookup k fields' = Dict.lookup k fields)
    /\ (forall k, In k (Dict.keys fields') <->
          In k (Dict.keys fields) \/ k = "date" \/ k = "force_id").
Proof.
  exists (tag_fields date force_id fields). repeat split.
  - apply tag_fields_date.
  - apply tag_fields_force.
  - intros k. apply tag_fields_other.
  - unfold tag_fields. rewrite !keys_set_in. tauto.
  - unfold tag_fields. rewrite !keys_set_in. tauto.
Qed.

End Requests.

(** ** Filtering the catalog *)

Lemma dt_not_ltb (a b : datetime) : negb (dt_ltb a b) = dt_leb b a.
Proof.
  unfold dt_ltb, dt_leb.
  destruct (Z.ltb_spec (year a) (year b)), (Z.ltb_spec (year b) (year a)),
    (Z.eqb_spec (year a) (year b)), (Z.eqb_spec (year b) (year a)),
    (Z.ltb_spec (month a) (month b)), (Z.leb_spec (month b) (month a));
    simpl; try reflexivity; lia.
Qed.

Lemma filter_all {A : Type} (l : list A) : filter (fun _ => true) l = l.
Proof. induction l as [|x l IH]; simpl; [reflexivity|now rewrite IH]. Qed.

Section Dates.

Variable strptime_Ym : string -> option datetime.
Variable http_dates : outcome.

(** The loop keeps the months within the bounds, in catalog order. *)
Lemma keep_months_run (start_date end_date : option datetime)
    (months filtered_data : list json) :
  Forall (fun month_data => month_of strptime_Ym month_data <> None) months ->
  for_each months (keep_month strptime_Ym start_date end_date) filtered_data =
    (filtered_data ++ filter (within strptime_Ym start_date end_date) months, Ok tt).
Proof.
  intros H. revert filtered_data.
  induction H as [|month_data months Hm _ IH]; intros filtered_data.
  - simpl. unfold ret. now rewrite app_nil_r.
  - simpl. unfold bind at 1. unfold keep_month at 1, within at 1.
    unfold month_of in *.
    destruct (getitem month_data "date") as [d|]; [|congruence].
    unfold bind, lift. simpl.
    destruct (strptime strptime_Ym d) as [m|]; [|congruence].
    unfold before_start, after_end.
    destruct start_date as [s|], end_date as [e|]; simpl;
      rewrite <- ?dt_not_ltb;
      repeat match goal with
             | |- context [dt_ltb ?x ?y] => destruct (dt_ltb x y); simpl
             end;
      unfold ret, modify; rewrite IH; try reflexivity;
      now rewrite <- app_assoc.
Qed.

(** The loop raises at the first month whose date is missing or does not
    parse. *)
Lemma keep_months_raise (start_date end_date : option datetime)
    (months filtered_data : list json) :
  Exists (fun month_data => month_of strptime_Ym month_data = None) months ->
  exists filtered e,
    for_each months (keep_month strptime_Ym start_date end_date) filtered_data =
      (filtered, Raise e).
Proof.
  revert filtered_data.
  induction months as [|month_data months IH]; intros filtered_data H.
  - inversion H.
  - simpl. unfold bind at 1. unfold keep_month at 1.
    unfold month_of in *.
    destruct (getitem month_data "date") as [d|e0] eqn:Ed;
      unfold bind, lift; simpl; [|now eauto].
    destruct (strptime strptime_Ym d) as [m|e0] eqn:Em; [|now eauto].
    assert (Exists (fun md => match getitem md "date" with
                              | Ok d => match strptime strptime_Ym d with
                                        | Ok m => Some m
                                        | Raise _ => None
                                        end
                              | Raise _ => None
                              end = None) months) as Hrest.
    { inversion H as [? ? Hhd|? ? Htl]; subst; [|exact Htl].
      rewrite Ed, Em in Hhd. discriminate. }
    destruct (before_start start_date m); [now apply IH|].
    destruct (after_end end_date m); [now apply IH|].
    unfold modify. now apply IH.
Qed.

(** C4. On every catalog and every pair of optional bounds,
    [fetch_available_dates] returns the catalog's months whose parsed
    month [m] has [start <= m <= end], in catalog order, a missing bound
    constraining nothing; without bounds it returns the catalog as it is.
    The months are parsed only when a bound is given, and the statement
    then asks that they parse. *)
Theorem fetch_available_dates_filters (entries : list json)
    (start_date end_date : option datetime) (w : world) :
  http_dates = Response 200 (Some (JArr entries)) ->
  (start_date <> None \/ end_date <> None ->
   Forall (fun month_data => month_of strptime_Ym month_data <> None) entries) ->
  snd (fetch_available_dates strptime_Ym http_dates start_date end_date w) =
    Ok (JArr (filter (within strptime_Ym start_date end_date) entries))
  /\ (start_date = None -> end_date = None ->
      snd (fetch_available_dates strptime_Ym http_dates start_date end_date w) = Ok (JArr entries)).
Proof.
  intros Hd Hp.
  assert (snd (fetch_available_dates strptime_Ym http_dates start_date end_date w) =
            Ok (JArr (filter (within strptime_Ym start_date end_date) entries))) as E.
  { unfold fetch_available_dates. rewrite Hd.
    unfold bind at 1. unfold print at 1, emit, modify. simpl.
    unfold bind at 1. unfold lift at 1. simpl.
    destruct start_date as [s|], end_date as [e|]; simpl;
      try (rewrite keep_months_run by (apply Hp; auto; left + right; discriminate));
      unfold bind, lift, print, emit, modify, ret; simpl;
      try (rewrite keep_months_run by (apply Hp; (left + right); discriminate));
      simpl; try reflexivity.
    unfold within. simpl. now rewrite filter_all. }
  split; [exact E|].
  intros -> ->. rewrite E. unfold within. simpl.
  now rewrite filter_all.
Qed.

(** C10 (amended). Without bounds [fetch_available_dates] returns the
    catalog whatever its entries hold under [date], missing and malformed
    dates included, and whatever the month parser does: no entry can make
    the call fail. The date is read and parsed only when a bound is
    given, and an entry whose date is missing or does not parse then
    makes the call raise. *)
Theorem unfiltered_fetch_never_parses (entries : list json) (w : world) :
  http_dates = Response 200 (Some (JArr entries)) ->
  snd (fetch_available_dates strptime_Ym http_dates None None w) =
    Ok (JArr entries)
  /\ (forall start_date end_date,
        start_date <> None \/ end_date <> None ->
        Exists (fun month_data => month_of strptime_Ym month_data = None)
               entries ->
        exists e,
          snd (fetch_available_dates strptime_Ym http_dates
                 start_date end_date w) = Raise e).
Proof.
  intros Hd. split.
  - unfold fetch_available_dates. rewrite Hd. reflexivity.
  - intros start_date end_date Hb Hbad.
    unfold fetch_available_dates. rewrite Hd.
    unfold bind at 1. unfold print at 1, emit, modify. simpl.
    unfold bind at 1. unfold lift at 1. simpl.
    assert (is_some start_date || is_some end_date = true) as ->.
    { destruct start_date, end_date; simpl; try reflexivity.
      destruct Hb; congruence. }
    unfold bind at 1 2 3. unfold lift at 1. simpl.
    destruct (keep_months_raise start_date end_date entries [] Hbad)
      as (filtered & e & ->).
    simpl. now exists e.
Qed.

End Dates.

(** ** Console-only statements *)

Lemma quiet_silent {S A : Type} (o : S -> list event) (c : M S A) :
  (forall s, o (fst (c s)) = o s) -> quiet o c.
Proof. intros H s. exists []. now rewrite H, app_nil_r. Qed.

Lemma quiet_ret {S A : Type} (o : S -> list event) (a : A) : quiet o (ret a).
Proof. now apply quiet_silent. Qed.

Lemma quiet_raise {S A : Type} (o : S -> list event) (e : exn) :
  quiet o (@raise S A e).
Proof. now apply quiet_silent. Qed.

Lemma quiet_lift {S A : Type} (o : S -> list event) (r : result A) :
  quiet o (lift r).
Proof. now apply quiet_silent. Qed.

Lemma quiet_bind {S A B : Type} (o : S -> list event) (c : M S A) (k : A -> M S B) :
  quiet o c -> (forall a, quiet o (k a)) -> quiet o (bind c k).
Proof.
  intros Hc Hk s. unfold bind.
  destruct (Hc s) as (e1 & E1 & C1).
  destruct (c s) as [s1 [a|e]]; simpl in *.
  - destruct (Hk a s1) as (e2 & E2 & C2).
    exists (e1 ++ e2). rewrite E2, E1, app_assoc, forallb_app, C1, C2. now split.
  - now exists e1.
Qed.

Lemma quiet_try_except {S A : Type} (o : S -> list event) (c : M S A)
    (h : exn -> M S A) :
  quiet o c -> (forall e, quiet o (h e)) -> quiet o (try_except c h).
Proof.
  intros Hc Hh s. unfold try_except.
  destruct (Hc s) as (e1 & E1 & C1).
  destruct (c s) as [s1 [a|e]]; simpl in *.
  - now exists e1.
  - destruct (is_Exception e); [|now exists e1].
    destruct (Hh e s1) as (e2 & E2 & C2).
    exists (e1 ++ e2). rewrite E2, E1, app_assoc, forallb_app, C1, C2. now split.
Qed.

Lemma quiet_for_each {S A : Type} (o : S -> list event) (xs : list A)
    (body : A -> M S unit) :
  (forall x, quiet o (body x)) -> quiet o (for_each xs body).
Proof.
  intros Hb. induction xs as [|x xs IH]; simpl.
  - apply quiet_ret.
  - apply quiet_bind; [apply Hb|intros _; exact IH].
Qed.

Lemma quiet_emit (ev : event) : is_console ev = true -> quiet out (emit ev).
Proof.
  intros H s. exists [ev]. unfold emit, modify. simpl. now rewrite H.
Qed.

Lemma quiet_print (line : list piece) : quiet out (print line).
Proof. now apply quiet_emit. Qed.

Lemma quiet_print_end (line : list piece) (e : string) :
  quiet out (print_end line e).
Proof. now apply quiet_emit. Qed.

Lemma quiet_outside {L A : Type} (c : M world A) :
  quiet out c -> quiet (fun s : world * L => out (fst s)) (outside c).
Proof.
  intros Hc [w l]. destruct (Hc w) as (evs & E & C).
  exists evs. unfold outside. simpl. destruct (c w) as [w' r]. simpl in *.
  now split.
Qed.

Lemma quiet_set_local {L : Type} (f : L -> L) :
  quiet (fun s : world * L => out (fst s)) (set_local f).
Proof. now apply quiet_silent. Qed.

Lemma quiet_scope {L A : Type} (init : L) (c : M (world * L) A) :
  quiet (fun s : world * L => out (fst s)) c -> quiet out (scope init c).
Proof.
  intros Hc w. destruct (Hc (w, init)) as (evs & E & C).
  exists evs. unfold scope. destruct (c (w, init)) as [[w' l] [a|e]]; simpl in *;
    now split.
Qed.

Create HintDb quiet.
#[local] Hint Resolve quiet_ret quiet_raise quiet_lift quiet_print quiet_print_end
  quiet_set_local : quiet.

Ltac quiet_step :=
  match goal with
  | |- quiet _ (bind _ _) => apply quiet_bind; [|intros]
  | |- quiet _ (try_except _ _) => apply quiet_try_except; [|intros]
  | |- quiet _ (for_each _ _) => apply quiet_for_each; intros
  | |- quiet _ (outside _) => apply quiet_outside
  | |- quiet _ (scope _ _) => apply quiet_scope
  | |- quiet _ (emit _) => apply quiet_emit; reflexivity
  | |- quiet _ (if ?b then _ else _) => destruct b
  | |- quiet _ (match ?x with _ => _ end) => destruct x
  | |- quiet _ _ => solve [auto with quiet]
  end.

Lemma requests_get_stops_quiet (http_stops : nat -> json -> json -> outcome)
    (force_id date : json) :
  quiet out (requests_get_stops http_stops force_id date).
Proof.
  apply quiet_silent. intros s. unfold requests_get_stops.
  now destruct (http_stops (attempts s) force_id date).
Qed.

Lemma fetch_stops_data_quiet (http_stops : nat -> json -> json -> outcome)
    (available_data : json) :
  quiet out (fetch_stops_data http_stops available_data).
Proof.
  unfold fetch_stops_data, fetch_month, fetch_force, tag_record.
  repeat quiet_step.
  apply requests_get_stops_quiet.
Qed.

Lemma fetch_available_dates_quiet (strptime_Ym : string -> option datetime)
    (http_dates : outcome) (start_date end_date : option datetime) :
  quiet out (fetch_available_dates strptime_Ym http_dates start_date end_date).
Proof.
  unfold fetch_available_dates.
  repeat quiet_step;
    apply quiet_silent; intros s;
    now destruct (for_each _ _ _).
Qed.


(** ** The pipeline of [main] *)

Lemma bind_ok {S A B : Type} (c : M S A) (k : A -> M S B) (s s' : S) (a : A) :
  c s = (s', Ok a) -> bind c k s = k a s'.
Proof. unfold bind. now intros ->. Qed.

Lemma list_comp_dates (months : list json) (dates : list string) :
  Forall2 (fun month_data d => getitem month_data "date" = Ok (JStr d)) months dates ->
  list_comp (fun d => getitem d "date") months = Ok (map JStr dates).
Proof.
  induction 1 as [|month_data d months dates Hd _ IH]; simpl; [reflexivity|].
  now rewrite Hd, IH.
Qed.

Lemma strings_of_map (dates : list string) : strings_of (map JStr dates) = Some dates.
Proof. induction dates as [|d dates IH]; simpl; [reflexivity|now rewrite IH]. Qed.

Lemma sort_strings_nonempty (l : list string) : l <> [] -> sort_strings l <> [].
Proof.
  intros Hl E. apply Hl.
  pose proof (sort_strings_perm l) as Hp. rewrite E in Hp.
  symmetry in Hp. now apply Permutation_nil in Hp.
Qed.

(** The name of the output files is built from the least and the greatest
    date of the months of the catalog. *)
Lemma output_filename_spans (months : list json) (dates : list string) :
  Forall2 (fun month_data d => getitem month_data "date" = Ok (JStr d)) months dates ->
  months <> [] ->
  exists earliest latest,
    output_filename (JArr months) = Ok ("ssd_" ++ earliest ++ "-" ++ latest)%string
    /\ In earliest dates /\ In latest dates
    /\ forall d, In d dates -> str_le earliest d /\ str_le d latest.
Proof.
  intros H Hm.
  assert (dates <> []) as Hd.
  { intros ->. inversion H. congruence. }
  pose proof (sort_strings_nonempty dates Hd) as Hs.
  destruct (hd_error (sort_strings dates)) as [earliest|] eqn:Hlo.
  2: { destruct (sort_strings dates); [congruence|discriminate]. }
  destruct (hd_error (rev (sort_strings dates))) as [latest|] eqn:Hhi.
  2: { destruct (rev (sort_strings dates)) eqn:Er; [|discriminate].
       apply (f_equal (@rev string)) in Er.
       rewrite rev_involutive in Er. simpl in Er. congruence. }
  exists earliest, latest.
  split.
  - unfold output_filename. simpl.
    rewrite (list_comp_dates months dates H).
    unfold sorted. rewrite strings_of_map.
    unfold last_item, first_item.
    destruct (sort_strings dates) as [|x l]; [discriminate|].
    injection Hlo as ->.
    destruct (rev (earliest :: l)) as [|y r]; [discriminate|].
    injection Hhi as ->. reflexivity.
  - now apply sort_strings_bounds.
Qed.

Section Main.

Variable strptime_Ym : string -> option datetime.
Variable http_dates : outcome.
Variable http_stops : nat -> json -> json -> outcome.
Variable output_dir_exists : bool.

(** C7. When the catalog [fetch_available_dates] returns is empty, or
    [fetch_stops_data] returns no record, [main] returns normally having
    printed one of its two messages last, and everything the run did
    before is console output: no directory is made and no file written. *)
Theorem main_stops_before_export (a : args) (w w1 : world)
    (start_date end_date : option datetime) (available_data : json) :
  optional_date strptime_Ym (arg_start a) = Ok start_date ->
  optional_date strptime_Ym (arg_end a) = Ok end_date ->
  start_after_end start_date end_date = false ->
  fetch_available_dates strptime_Ym http_dates start_date end_date w =
    (w1, Ok available_data) ->
  (truthy available_data = false \/
   exists total answers,
     snd (fetch_stops_data http_stops available_data w1) =
       Ok ([], total, answers)) ->
  exists w' evs message,
    main strptime_Ym http_dates http_stops output_dir_exists a w = (w', Ok tt)
    /\ out w' = out w ++ evs ++ [Print [Lit message; Lit nl]]
    /\ forallb is_console evs = true
    /\ (message = "No hay datos disponibles para el rango de fechas especificado"
        \/ message = "No se obtuvieron registros").
Proof.
  intros Hs He Hse Hf Hempty.
  destruct (fetch_available_dates_quiet strptime_Ym http_dates
              start_date end_date w) as (evs1 & E1 & C1).
  rewrite Hf in E1. simpl in E1.
  unfold main.
  rewrite (bind_ok _ _ w w start_date) by (unfold lift; now rewrite Hs).
  rewrite (bind_ok _ _ w w end_date) by (unfold lift; now rewrite He).
  rewrite Hse.
  rewrite (bind_ok _ _ w w tt) by reflexivity.
  rewrite (bind_ok _ _ w w1 available_data) by exact Hf.
  destruct (truthy available_data) eqn:Et; simpl.
  - destruct Hempty as [Hempty|(total & answers & Hempty)]; [discriminate|].
    destruct (fetch_stops_data_quiet http_stops available_data w1)
      as (evs2 & E2 & C2).
    destruct (fetch_stops_data http_stops available_data w1) as [w2 r] eqn:Ef.
    simpl in Hempty, E2. subst r.
    rewrite (bind_ok _ _ w1 w2 ([], total, answers)) by exact Ef.
    simpl. unfold print, emit, modify. simpl.
    eexists. exists (evs1 ++ evs2). eexists.
    split; [reflexivity|]. simpl.
    rewrite E2, E1, forallb_app, C1, C2, <- !app_assoc. auto.
  - unfold print, emit, modify. simpl.
    eexists. exists evs1. eexists.
    split; [reflexivity|]. simpl.
    rewrite E1, C1, <- !app_assoc. auto.
Qed.

(** C2. When [main] reaches the export, it calls [save_data] with the
    base path [data/stop_search_data/ssd_<earliest>-<latest>], where
    [earliest] and [latest] are the least and the greatest of the dates
    of all the months [fetch_available_dates] returned, whatever their
    force lists hold and whatever their requests gave. *)
Theorem output_path_spans_catalog (a : args) (w w1 w2 : world)
    (start_date end_date : option datetime)
    (months : list json) (dates : list string)
    (recs : list json) (total answers : nat) :
  optional_date strptime_Ym (arg_start a) = Ok start_date ->
  optional_date strptime_Ym (arg_end a) = Ok end_date ->
  start_after_end start_date end_date = false ->
  fetch_available_dates strptime_Ym http_dates start_date end_date w =
    (w1, Ok (JArr months)) ->
  Forall2 (fun month_data d => getitem month_data "date" = Ok (JStr d))
          months dates ->
  fetch_stops_data http_stops (JArr months) w1 = (w2, Ok (recs, total, answers)) ->
  recs <> [] ->
  exists earliest latest,
    In earliest dates /\ In latest dates
    /\ (forall d, In d dates -> str_le earliest d /\ str_le d latest)
    /\ main strptime_Ym http_dates http_stops output_dir_exists a w =
         (saved_files <-
            save_data recs
              ("data/stop_search_data/ssd_" ++ earliest ++ "-" ++ latest)%string
              (in_formats (arg_format a) [FmtJson; FmtAll])
              (in_formats (arg_format a) [FmtCsv; FmtAll])
              (in_formats (arg_format a) [FmtParquet; FmtAll]) ;;
          print_summary (JArr months) answers total saved_files)
         (after_makedirs output_dir_exists w2).
Proof.
  intros Hs He Hse Hf Hd Hr Hrecs.
  assert (months <> []) as Hm.
  { intros ->. vm_compute in Hr. injection Hr as _ <- _ _. congruence. }
  destruct (output_filename_spans months dates Hd Hm)
    as (earliest & latest & Hname & Hlo & Hhi & Hb).
  exists earliest, latest. repeat split; try assumption; try (now apply Hb).
  unfold main.
  rewrite (bind_ok _ _ w w start_date) by (unfold lift; now rewrite Hs).
  rewrite (bind_ok _ _ w w end_date) by (unfold lift; now rewrite He).
  rewrite Hse.
  rewrite (bind_ok _ _ w w tt) by reflexivity.
  rewrite (bind_ok _ _ w w1 (JArr months)) by exact Hf.
  assert (truthy (JArr months) = true) as -> by now destruct months.
  cbn [negb].
  rewrite (bind_ok _ _ w1 w2 (recs, total, answers)) by exact Hr.
  assert (truthy (JArr recs) = true) as -> by now destruct recs.
  cbn [negb].
  cbv beta iota zeta.
  rewrite (bind_ok _ _ w2 (after_makedirs output_dir_exists w2) tt).
  2: { unfold after_makedirs. destruct output_dir_exists; simpl; [reflexivity|].
       unfold bind, emit, print, emit, modify. simpl.
       now rewrite <- app_assoc. }
  rewrite (bind_ok _ _ _ (after_makedirs output_dir_exists w2)
             ("ssd_" ++ earliest ++ "-" ++ latest)%string)
    by (unfold lift; now rewrite Hname).
  reflexivity.
Qed.

End Main.

(** * The statements on a concrete run *)

Lemma example_months_entries : Forall2 month_entry example_months example_catalog.
Proof. repeat constructor. Defined.

(** Two pairs are requested, the first is answered and the second raises:
    [total_requests] is 1. *)
Lemma total_requests_counts_answered_witness :
  Forall2 month_entry example_months example_catalog /\
  exists recs total,
    snd (fetch_stops_data example_stops (JArr example_months) start) =
      Ok (recs, total, 1).
Proof.
  split; [exact example_months_entries|].
  destruct (total_requests_counts_answered example_stops example_months
              example_catalog start example_months_entries)
    as (recs & total & E & _).
  exists recs, total. exact E.
Defined.

(** C1 fails as stated: when the transport raises on the only pair of the
    catalog, one pair was attempted and [total_requests] is 0. *)
Lemma total_requests_misses_transport_errors :
  ~ (forall (http_stops : nat -> json -> json -> outcome) (months : list json)
            (catalog : list (json * list json)) (w : world),
        Forall2 month_entry months catalog ->
        exists recs total,
          snd (fetch_stops_data http_stops (JArr months) w) =
            Ok (recs, total, List.length (pairs catalog))).
Proof.
  intros H.
  destruct (H no_transport
              [JObj [("date", JStr "2023-01");
                     ("stop-and-search", JArr [JStr "metropolitan"])]]
              [(JStr "2023-01", [JStr "metropolitan"])] start)
    as (recs & total & E).
  - repeat constructor.
  - vm_compute in E. discriminate E.
Qed.

Lemma all_records_tagged_in_order_witness :
  Forall2 month_entry example_months example_catalog /\
  exists total answers,
    snd (fetch_stops_data example_stops (JArr example_months) start) =
      Ok ([JObj [("type", JStr "Person search"); ("date", JStr "2023-01");
                 ("force_id", JStr "metropolitan")];
           JObj [("outcome", JNull); ("date", JStr "2023-01");
                 ("force_id", JStr "metropolitan")]],
          total, answers).
Proof.
  split; [exact example_months_entries|].
  destruct (all_records_tagged_in_order example_stops example_months
              example_catalog start example_months_entries)
    as ((total & answers & E) & _).
  exists total, answers. exact E.
Defined.

Lemma total_records_sums_bodies_witness :
  Forall2 month_entry example_months example_catalog /\
  exists recs answers,
    snd (fetch_stops_data example_stops (JArr example_months) start) =
      Ok (recs, 2, answers).
Proof.
  split; [exact example_months_entries|].
  destruct (total_records_sums_bodies example_stops example_months
              example_catalog start example_months_entries)
    as ((recs & answers & E) & _).
  exists recs, answers. exact E.
Defined.

Lemma failed_requests_are_skipped_witness :
  Forall2 month_entry example_months example_catalog /\
  exists w' recs answers,
    fetch_stops_data example_stops (JArr example_months) start =
      (w', Ok (recs, 2, answers))
    /\ attempts w' = 2 /\ List.length recs = 2.
Proof.
  split; [exact example_months_entries|].
  destruct (failed_requests_are_skipped example_stops example_months
              example_catalog start example_months_entries)
    as ((w' & answers & E & A) & _).
  exists w'. do 2 eexists. split; [exact E|]. split; [exact A|reflexivity].
Defined.

Lemma tag_record_frame_witness :
  exists fields',
    tag_record (JStr "2023-01") (JStr "kent")
      (JObj [("type", JStr "Person search"); ("date", JStr "old")])
      (start, mkLocals [] 0 0) =
      ((start, mkLocals [JObj fields'] 0 0), Ok tt)
    /\ Dict.lookup "date" fields' = Some (JStr "2023-01")
    /\ Dict.lookup "type" fields' = Some (JStr "Person search").
Proof.
  destruct (tag_record_frame (JStr "2023-01") (JStr "kent")
              [("type", JStr "Person search"); ("date", JStr "old")]
              start (mkLocals [] 0 0))
    as (fields' & E & Hd & _ & Hk & _).
  exists fields'. split; [exact E|]. split; [exact Hd|].
  rewrite Hk; [reflexivity|discriminate|discriminate].
Defined.

(** From 2023-02 on, the example catalog keeps its second month. *)
Lemma fetch_available_dates_filters_witness :
  snd (fetch_available_dates strptime_digits example_dates
         (Some (mkDate 2023 2)) None start) =
    Ok (JArr [JObj [("date", JStr "2023-02"); ("stop-and-search", JArr [])]]).
Proof.
  apply (fetch_available_dates_filters strptime_digits example_dates
           example_months (Some (mkDate 2023 2)) None start).
  - reflexivity.
  - intros _. repeat constructor; discriminate.
Defined.

(** A month without a date passes an unfiltered call and makes a filtered
    one raise. *)
Lemma unfiltered_fetch_never_parses_witness :
  snd (fetch_available_dates strptime_digits undated_dates None None start) =
    Ok (JArr undated_months)
  /\ exists e,
       snd (fetch_available_dates strptime_digits undated_dates
              (Some (mkDate 2023 1)) None start) = Raise e.
Proof.
  destruct (unfiltered_fetch_never_parses strptime_digits undated_dates
              undated_months start eq_refl) as [Hnone Hsome].
  split; [exact Hnone|].
  apply Hsome; [left; discriminate|].
  constructor. reflexivity.
Defined.

(** C10 fails as stated for the run: without bounds, a month that has no
    date passes [fetch_available_dates] and then makes [fetch_stops_data],
    and with it [main], raise [KeyError]; with its date the same run ends
    normally. *)
Lemma missing_date_fails_unfiltered_run :
  snd (fetch_available_dates strptime_digits undated_dates None None start) =
    Ok (JArr undated_months)
  /\ snd (main strptime_digits undated_dates no_transport true
            (no_bounds FmtParquet) start) = Raise KeyError
  /\ snd (main strptime_digits
            (Response 200
               (Some (JArr [JObj [("date", JStr "2023-01");
                                  ("stop-and-search", JArr [JStr "kent"])]])))
            no_transport true (no_bounds FmtParquet) start) = Ok tt.
Proof. repeat split; vm_compute; reflexivity. Qed.

(** Every request of the example catalog raising, [main] stops on its
    second message. *)
Lemma main_stops_before_export_witness :
  exists w' evs message,
    main strptime_digits example_dates no_transport false (no_bounds FmtAll) start =
      (w', Ok tt)
    /\ out w' = out start ++ evs ++ [Print [Lit message; Lit nl]]
    /\ forallb is_console evs = true
    /\ (message = "No hay datos disponibles para el rango de fechas especificado"
        \/ message = "No se obtuvieron registros").
Proof.
  apply (main_stops_before_export strptime_digits example_dates no_transport false
           (no_bounds FmtAll) start
           (fst (fetch_available_dates strptime_digits example_dates None None start))
           None None (JArr example_months)).
  - reflexivity.
  - reflexivity.
  - reflexivity.
  - reflexivity.
  - right. exists 0, 0. reflexivity.
Defined.

(** The example run names its files after both months of the catalog,
    the second of which has no force. *)
Lemma output_path_spans_catalog_witness :
  exists earliest latest,
    In earliest ["2023-01"; "2023-02"] /\ In latest ["2023-01"; "2023-02"]
    /\ (forall d, In d ["2023-01"; "2023-02"] ->
          str_le earliest d /\ str_le d latest)
    /\ exists w2 recs total answers,
         main strptime_digits example_dates example_stops false
           (no_bounds FmtJson) start =
           (saved_files <-
              save_data recs
                ("data/stop_search_data/ssd_" ++ earliest ++ "-" ++ latest)%string
                true false false ;;
            print_summary (JArr example_months) answers total saved_files)%py
           (after_makedirs false w2).
Proof.
  destruct (output_path_spans_catalog strptime_digits example_dates example_stops
              false (no_bounds FmtJson) start
              (fst (fetch_available_dates strptime_digits example_dates
                      None None start))
              (fst (fetch_stops_data example_stops (JArr example_months)
                      (fst (fetch_available_dates strptime_digits example_dates
                              None None start))))
              None None example_months ["2023-01"; "2023-02"]
              [JObj [("type", JStr "Person search"); ("date", JStr "2023-01");
                     ("force_id", JStr "metropolitan")];
               JObj [("outcome", JNull); ("date", JStr "2023-01");
                     ("force_id", JStr "metropolitan")]]
              2 1)
    as (earliest & latest & Hlo & Hhi & Hb & E).
  - reflexivity.
  - reflexivity.
  - reflexivity.
  - reflexivity.
  - repeat constructor.
  - reflexivity.
  - discriminate.
  - exists earliest, latest. repeat split; try assumption; try (now apply Hb).
    do 4 eexists. exact E.
Defined.

(** * Further properties of the request loop *)

Lemma for_each_app {S A : Type} (a b : list A) (body : A -> M S unit) (s : S) :
  for_each (a ++ b) body s = bind (for_each a body) (fun _ => for_each b body) s.
Proof.
  revert s. induction a as [|x a IH]; intros s; simpl; [reflexivity|].
  unfold bind. destruct (body x s) as [s1 [u|e]]; [|reflexivity].
  rewrite IH. reflexivity.
Qed.

Lemma pairs_no_forces (catalog : list (json * list json)) :
  Forall (fun entry => snd entry = []) catalog -> pairs catalog = [].
Proof.
  unfold pairs. induction 1 as [|entry catalog He _ IH]; simpl; [reflexivity|].
  now rewrite He, IH.
Qed.

Lemma leading_objects_length (items : list json) :
  List.length (leading_objects items) <= List.length items.
Proof.
  induction items as [|x items IH]; simpl; [lia|].
  destruct x; simpl; lia.
Qed.

Lemma leading_objects_all (items : list json) :
  forallb is_object items = true ->
  List.length (leading_objects items) = List.length items.
Proof.
  induction items as [|x items IH]; simpl; [reflexivity|].
  destruct x; simpl; try discriminate. intros H. now rewrite IH.
Qed.

Lemma leading_objects_stop (ds : list Dict.t) (bad : json) (rest : list json) :
  is_object bad = false ->
  leading_objects (map JObj ds ++ bad :: rest) = ds
  /\ forallb is_object (map JObj ds ++ bad :: rest) = false.
Proof.
  intros Hbad. induction ds as [|d ds [IH1 IH2]]; simpl.
  - destruct bad; try discriminate; now split.
  - now rewrite IH1, IH2.
Qed.

Lemma counted_le_collected (r : request) : counted r <= List.length (collected r).
Proof.
  unfold counted, collected. rewrite length_map.
  destruct (forallb is_object (body_items r)) eqn:E; [|lia].
  now rewrite leading_objects_all.
Qed.

Lemma collected_length (rs : list request) :
  List.length (flat_map collected rs) =
  list_sum (map (fun r => List.length (collected r)) rs).
Proof.
  induction rs as [|r rs IH]; simpl; [reflexivity|].
  now rewrite length_app, IH.
Qed.

Lemma filter_length_all {A : Type} (p : A -> bool) (l : list A) :
  List.length (filter p l) = List.length l <-> forall x, In x l -> p x = true.
Proof.
  induction l as [|x l IH]; simpl; [tauto|].
  pose proof (filter_length_le p l) as Hle.
  destruct (p x) eqn:E; simpl.
  - split.
    + intros H y [<-|Hy]; [exact E|]. apply IH; [lia|exact Hy].
    + intros H. f_equal. apply IH. auto.
  - split; [lia|]. intros H. specialize (H x (or_introl eq_refl)). congruence.
Qed.

Section MoreRequests.

Variable http_stops : nat -> json -> json -> outcome.

(** X7. A month without a readable [date] ends [fetch_stops_data] with the
    exception of the subscript, after the requests of the months before it
    were issued: what these months collected is not returned. *)
Theorem missing_date_aborts_fetch (good : list json) (bad : json)
    (rest : list json) (catalog : list (json * list json)) (w : world) (e : exn) :
  Forall2 month_entry good catalog ->
  getitem bad "date" = Raise e ->
  exists w',
    fetch_stops_data http_stops (JArr (good ++ bad :: rest)) w = (w', Raise e)
    /\ attempts w' = attempts w + List.length (pairs catalog).
Proof.
  intros Hgood Hbad.
  destruct (months_run http_stops good catalog w (mkLocals [] 0 0) Hgood)
    as (w1 & E & A).
  exists w1. split; [|exact A].
  unfold fetch_stops_data, bind at 1, scope, bind at 1, lift at 1. simpl.
  rewrite for_each_app. unfold bind at 1. rewrite E. simpl.
  unfold bind at 1. unfold fetch_month, bind at 1, lift at 1. rewrite Hbad.
  reflexivity.
Qed.

(** X9. A response with status 200 whose body is not an array (an object,
    a string, a number, [null], or a body that does not decode) is counted
    as a request and adds nothing else: no record, no count, no exception. *)
Theorem non_array_body_adds_nothing (date force_id : json) (body : option json)
    (w : world) (l : locals) :
  http_stops (attempts w) force_id date = Response 200 body ->
  (forall items, body <> Some (JArr items)) ->
  exists w',
    fetch_force http_stops date force_id (w, l) =
      ((w', mkLocals (all_records l) (total_records l) (total_requests l + 1)),
       Ok tt)
    /\ attempts w' = S (attempts w).
Proof.
  intros Ho Hbody.
  destruct (fetch_force_run http_stops date force_id w l) as (w' & E & A).
  exists w'. split; [|exact A]. rewrite E. do 2 f_equal.
  unfold gather, collected, counted, answered, body_items. simpl. rewrite Ho.
  destruct l as [recs nrec nreq]. simpl.
  destruct body as [v|]; [destruct v|]; simpl;
    try (now rewrite app_nil_r, Nat.add_0_r).
  now destruct (Hbody items).
Qed.

(** X10. When an item of a 200 response is not an object, the records
    before it are appended, tagged, and none of the response is counted in
    [total_records]; the loop goes on. *)
Theorem partial_body_appended_uncounted (date force_id : json)
    (stops : list Dict.t) (bad : json) (rest : list json)
    (w : world) (l : locals) :
  http_stops (attempts w) force_id date =
    Response 200 (Some (JArr (map JObj stops ++ bad :: rest))) ->
  is_object bad = false ->
  exists w',
    fetch_force http_stops date force_id (w, l) =
      ((w', mkLocals
              (all_records l ++
               map (fun d => JObj (tag_fields date force_id d)) stops)
              (total_records l) (total_requests l + 1)),
       Ok tt)
    /\ attempts w' = S (attempts w).
Proof.
  intros Ho Hbad.
  destruct (fetch_force_run http_stops date force_id w l) as (w' & E & A).
  exists w'. split; [|exact A]. rewrite E. do 2 f_equal.
  unfold gather, collected, counted, answered, body_items. simpl. rewrite Ho.
  simpl.
  destruct (leading_objects_stop stops bad rest Hbad) as [-> ->].
  destruct l as [recs nrec nreq]. simpl.
  now rewrite app_nil_r, Nat.add_0_r.
Qed.

(** X11. [total_records] never exceeds the number of records returned, and
    equals it when every array returned with status 200 holds objects only. *)
Theorem total_records_at_most_records (months : list json)
    (catalog : list (json * list json)) (w : world) :
  Forall2 month_entry months catalog ->
  let requests := requests_from http_stops (attempts w) (pairs catalog) in
  exists recs total answers,
    snd (fetch_stops_data http_stops (JArr months) w) = Ok (recs, total, answers)
    /\ total <= List.length recs
    /\ ((forall r, In r requests -> forallb is_object (body_items r) = true) ->
        total = List.length recs).
Proof.
  intros H requests.
  destruct (fetch_stops_data_run http_stops months catalog w H) as (w' & E & _).
  do 3 eexists. rewrite E. split; [reflexivity|].
  fold requests. rewrite collected_length. clearbody requests. clear.
  induction requests as [|r rs [IH1 IH2]]; simpl; [split; [lia|reflexivity]|].
  pose proof (counted_le_collected r) as Hr. split; [lia|].
  intros Hall. rewrite IH2 by (intros; apply Hall; now right).
  f_equal. unfold counted, collected.
  rewrite (Hall r (or_introl eq_refl)), length_map.
  symmetry. apply leading_objects_all. apply Hall. now left.
Qed.

(** X12. [total_requests] never exceeds the number of pairs requested, and
    equals it exactly when no request raised a transport exception. *)
Theorem total_requests_at_most_attempts (months : list json)
    (catalog : list (json * list json)) (w : world) :
  Forall2 month_entry months catalog ->
  let requests := requests_from http_stops (attempts w) (pairs catalog) in
  exists recs total answers,
    snd (fetch_stops_data http_stops (JArr months) w) = Ok (recs, total, answers)
    /\ answers <= List.length (pairs catalog)
    /\ (answers = List.length (pairs catalog) <->
        forall r, In r requests -> req_outcome r <> TransportError).
Proof.
  intros H requests.
  destruct (fetch_stops_data_run http_stops months catalog w H) as (w' & E & _).
  do 3 eexists. rewrite E. split; [reflexivity|].
  fold requests.
  rewrite <- (requests_from_length http_stops (attempts w) (pairs catalog)).
  fold requests. split; [apply filter_length_le|].
  rewrite filter_length_all. unfold answered.
  split; intros Hr r Hin; specialize (Hr r Hin);
    destruct (req_outcome r); congruence.
Qed.

(** X17. A catalog whose months all have an empty force list is walked
    without a single request and gives no record. *)
Theorem empty_force_lists_issue_no_request (months : list json)
    (catalog : list (json * list json)) (w : world) :
  Forall2 month_entry months catalog ->
  Forall (fun entry => snd entry = []) catalog ->
  exists w',
    fetch_stops_data http_stops (JArr months) w = (w', Ok ([], 0, 0))
    /\ attempts w' = attempts w.
Proof.
  intros H Hempty.
  destruct (fetch_stops_data_run http_stops months catalog w H) as (w' & E & A).
  rewrite (pairs_no_forces catalog Hempty) in E, A. simpl in E, A.
  exists w'. split; [exact E|lia].
Qed.

Lemma pauses_app (a b : list event) : pauses (a ++ b) = pauses a + pauses b.
Proof. unfold pauses. now rewrite filter_app, length_app. Qed.

Ltac run_all :=
  repeat (unfold bind, lift, set_local, modify, outside, print, emit, ret,
            response_json, iter, len; simpl).

Ltac count_pauses :=
  run_all; rewrite ?pauses_app; cbn; lia.

(** One request, one pause, whatever the request gave. *)
Lemma fetch_force_pauses (date force_id : json) (w : world) (l : locals) :
  pauses (out (fst (fst (fetch_force http_stops date force_id (w, l))))) =
  S (pauses (out w)).
Proof.
  unfold fetch_force.
  unfold bind at 1. unfold outside at 1. simpl.
  unfold bind at 1. unfold try_except.
  unfold bind at 1. unfold outside at 1, requests_get_stops. simpl.
  destruct (http_stops (attempts w) force_id date) as [|status body]; simpl;
    [count_pauses|].
  destruct (status =? 200)%Z eqn:Es; [|count_pauses].
  destruct body as [v|]; [|count_pauses].
  destruct v as [|b|n|f|s|stops|d].
  - count_pauses.
  - destruct b; count_pauses.
  - destruct (n =? 0)%Z eqn:En; run_all; rewrite En; count_pauses.
  - destruct f; count_pauses.
  - destruct s; count_pauses.
  - destruct stops as [|x stops]; [count_pauses|].
    remember (x :: stops) as items eqn:Ei.
    assert (truthy (JArr items) = true) as Et by now subst items.
    unfold bind, lift, set_local, modify, response_json. cbn [fst snd iter len].
    rewrite Et, tag_loop. cbn [fst snd all_records total_records total_requests].
    destruct (forallb is_object items); count_pauses.
  - destruct d as [|[k v] d]; count_pauses.
Qed.

Lemma forces_pauses (date : json) (force_ids : list json) (w : world) (l : locals) :
  pauses (out (fst (fst (for_each force_ids (fetch_force http_stops date) (w, l))))) =
  pauses (out w) + List.length force_ids.
Proof.
  revert w l. induction force_ids as [|f force_ids IH]; intros w l; simpl.
  - lia.
  - pose proof (fetch_force_pauses date f w l) as P.
    destruct (fetch_force_run http_stops date f w l) as (w1 & E1 & _).
    unfold bind. rewrite E1 in *. simpl in P. rewrite IH, P. lia.
Qed.

Lemma month_pauses (month_data date : json) (force_ids : list json)
    (w : world) (l : locals) :
  month_entry month_data (date, force_ids) ->
  pauses (out (fst (fst (fetch_month http_stops month_data (w, l))))) =
  pauses (out w) + List.length force_ids.
Proof.
  intros [Hd Hf]. simpl in Hd, Hf.
  unfold fetch_month, bind at 1 2, lift at 1 2. rewrite Hd, Hf.
  destruct force_ids as [|f force_ids].
  - simpl. count_pauses.
  - remember (f :: force_ids) as fs eqn:Efs.
    assert (truthy (JArr fs) = true) as Et by now subst fs.
    rewrite Et. cbn [negb].
    unfold bind, outside at 1 2 3 4, print, emit, modify, lift.
    cbn [fst snd len iter].
    rewrite forces_pauses. cbn [out]. rewrite !pauses_app. cbn. lia.
Qed.

Lemma months_pauses (months : list json) (catalog : list (json * list json))
    (w : world) (l : locals) :
  Forall2 month_entry months catalog ->
  pauses (out (fst (fst (for_each months (fetch_month http_stops) (w, l))))) =
  pauses (out w) + List.length (pairs catalog).
Proof.
  intros H. revert w l.
  induction H as [|month_data [date force_ids] months catalog Hm _ IH];
    intros w l; simpl; [lia|].
  pose proof (month_pauses month_data date force_ids w l Hm) as P.
  destruct (month_run http_stops month_data date force_ids w l Hm)
    as (w1 & E1 & _).
  unfold bind. rewrite E1 in *. simpl in P. rewrite IH, P.
  unfold pairs. simpl. rewrite length_app, length_map. fold (pairs catalog). lia.
Qed.

(** X8. [fetch_stops_data] pauses once per request, whether the request
    succeeded, was refused or raised; months without forces add no pause. *)
Theorem one_pause_per_request (months : list json)
    (catalog : list (json * list json)) (w : world) :
  Forall2 month_entry months catalog ->
  pauses (out (fst (fetch_stops_data http_stops (JArr months) w))) =
  pauses (out w) + List.length (pairs catalog).
Proof.
  intros H.
  pose proof (months_pauses months catalog w (mkLocals [] 0 0) H) as P.
  destruct (months_run http_stops months catalog w (mkLocals [] 0 0) H)
    as (w' & E & _).
  unfold fetch_stops_data, bind at 1, scope, bind at 1, lift. simpl.
  rewrite E in *. exact P.
Qed.

End MoreRequests.

(** * Further properties of the export and of [main] *)

Lemma effects_app (a b : list event) : effects (a ++ b) = effects a ++ effects b.
Proof. unfold effects. apply filter_app. Qed.

Lemma effects_console (evs : list event) :
  forallb is_console evs = true -> effects evs = [].
Proof.
  unfold effects. induction evs as [|ev evs IH]; simpl; [reflexivity|].
  destruct (is_console ev); simpl; [exact IH|discriminate].
Qed.

Ltac run_effects :=
  unfold print_summary, save_data, bind, lift, print, emit, modify, ret; simpl;
  rewrite ?effects_app; simpl; rewrite ?app_nil_r, <- ?app_assoc; simpl.


Section MoreMain.

Variable strptime_Ym : string -> option datetime.
Variable http_dates : outcome.
Variable http_stops : nat -> json -> json -> outcome.
Variable output_dir_exists : bool.

Lemma optional_date_some (s : string) (d : datetime) :
  s <> "" -> strptime_Ym s = Some d ->
  optional_date strptime_Ym (Some s) = Ok (Some d).
Proof.
  intros Hs Hd. unfold optional_date, parse_date, strptime. simpl.
  destruct (String.eqb_spec s ""); [congruence|]. simpl. now rewrite Hd.
Qed.

Lemma optional_date_malformed (s : string) :
  s <> "" -> strptime_Ym s = None ->
  optional_date strptime_Ym (Some s) = Raise ArgumentTypeError.
Proof.
  intros Hs Hd. unfold optional_date, parse_date, strptime. simpl.
  destruct (String.eqb_spec s ""); [congruence|]. simpl. now rewrite Hd.
Qed.

(** X3. When both bounds parse and the start is after the end, [main]
    leaves through [parser.error] with exit status 2: the only event is the
    usage message, and the run has asked the network nothing, whatever the
    endpoints would have answered. *)
Theorem main_rejects_start_after_end (a : args) (w : world)
    (s e : string) (start_date end_date : datetime) :
  arg_start a = Some s -> arg_end a = Some e ->
  s <> "" -> e <> "" ->
  strptime_Ym s = Some start_date -> strptime_Ym e = Some end_date ->
  dt_ltb end_date start_date = true ->
  main strptime_Ym http_dates http_stops output_dir_exists a w =
    (mkWorld (attempts w)
       (out w ++
        [Usage "La fecha de inicio no puede ser posterior a la fecha de fin"]),
     Raise (SystemExit 2)).
Proof.
  intros Hs He Hsn Hen Hsd Hed Hlt.
  unfold main.
  rewrite (bind_ok _ _ w w (Some start_date))
    by (unfold lift; rewrite Hs; now rewrite (optional_date_some s start_date)).
  rewrite (bind_ok _ _ w w (Some end_date))
    by (unfold lift; rewrite He; now rewrite (optional_date_some e end_date)).
  unfold start_after_end. rewrite Hlt. reflexivity.
Qed.

(** X4. A bound that is given, not empty and does not parse makes [main]
    raise [ArgumentTypeError] at once: nothing is printed, nothing is
    requested. The start is examined before the end. *)
Theorem main_rejects_malformed_bound (a : args) (w : world) :
  (exists s, arg_start a = Some s /\ s <> "" /\ strptime_Ym s = None)
  \/ (exists start_date e,
        optional_date strptime_Ym (arg_start a) = Ok start_date
        /\ arg_end a = Some e /\ e <> "" /\ strptime_Ym e = None) ->
  main strptime_Ym http_dates http_stops output_dir_exists a w =
    (w, Raise ArgumentTypeError).
Proof.
  intros [(s & Hs & Hn & Hp)|(start_date & e & Hs & He & Hn & Hp)]; unfold main.
  - unfold bind at 1, lift at 1. rewrite Hs.
    now rewrite (optional_date_malformed s).
  - rewrite (bind_ok _ _ w w start_date) by (unfold lift; now rewrite Hs).
    unfold bind at 1, lift at 1. rewrite He.
    now rewrite (optional_date_malformed e).
Qed.

(** X5. When the catalog request is answered with a status other than 200,
    the body is not looked at and the catalog is empty: with valid bounds
    [main] ends normally on its no-data message, having requested no
    stops and touched no file. *)
Theorem catalog_error_status_gives_no_data (a : args) (w : world)
    (status_code : Z) (body : option json)
    (start_date end_date : option datetime) :
  http_dates = Response status_code body -> status_code <> 200%Z ->
  optional_date strptime_Ym (arg_start a) = Ok start_date ->
  optional_date strptime_Ym (arg_end a) = Ok end_date ->
  start_after_end start_date end_date = false ->
  snd (fetch_available_dates strptime_Ym http_dates start_date end_date w) =
    Ok (JArr [])
  /\ exists evs,
       main strptime_Ym http_dates http_stops output_dir_exists a w =
         (mkWorld (attempts w)
            (out w ++ evs ++
             [Print [Lit "No hay datos disponibles para el rango de fechas especificado";
                     Lit nl]]),
          Ok tt)
       /\ forallb is_console evs = true.
Proof.
  intros Hd Hs Hsd Hed Hse.
  apply Z.eqb_neq in Hs.
  assert (exists evs,
            fetch_available_dates strptime_Ym http_dates start_date end_date w =
              (mkWorld (attempts w) (out w ++ evs), Ok (JArr []))
            /\ forallb is_console evs = true) as (evs & Ef & Cf).
  { unfold fetch_available_dates. rewrite Hd, Hs.
    destruct start_date, end_date;
      unfold bind, lift, print, emit, modify, ret; simpl;
      rewrite <- ?app_assoc; simpl; eexists; (split; [reflexivity|reflexivity]). }
  split; [now rewrite Ef|].
  exists evs. split; [|exact Cf].
  unfold main.
  rewrite (bind_ok _ _ w w start_date) by (unfold lift; now rewrite Hsd).
  rewrite (bind_ok _ _ w w end_date) by (unfold lift; now rewrite Hed).
  rewrite Hse.
  rewrite (bind_ok _ _ w w tt) by reflexivity.
  rewrite (bind_ok _ _ w _ (JArr [])) by exact Ef.
  simpl. unfold print, emit, modify. simpl. now rewrite <- app_assoc.
Qed.

(** X6. A catalog request that raises, or a 200 answer whose body does not
    decode, is not caught: with valid bounds [main] ends by that exception
    right after its first line, before any other request. *)
Theorem catalog_failure_propagates (a : args) (w : world) (e : exn)
    (start_date end_date : option datetime) :
  (http_dates = TransportError /\ e = RequestException)
  \/ (http_dates = Response 200 None /\ e = JSONDecodeError) ->
  optional_date strptime_Ym (arg_start a) = Ok start_date ->
  optional_date strptime_Ym (arg_end a) = Ok end_date ->
  start_after_end start_date end_date = false ->
  main strptime_Ym http_dates http_stops output_dir_exists a w =
    (mkWorld (attempts w)
       (out w ++ [Print [Lit "Obtaining available dates and forces..."; Lit nl]]),
     Raise e).
Proof.
  intros Hd Hsd Hed Hse.
  unfold main.
  rewrite (bind_ok _ _ w w start_date) by (unfold lift; now rewrite Hsd).
  rewrite (bind_ok _ _ w w end_date) by (unfold lift; now rewrite Hed).
  rewrite Hse.
  rewrite (bind_ok _ _ w w tt) by reflexivity.
  unfold bind at 1, fetch_available_dates.
  destruct Hd as [[-> ->]|[-> ->]]; reflexivity.
Qed.

End MoreMain.

Lemma str_le_antisym (a b : string) : str_le a b -> str_le b a -> a = b.
Proof. apply String.leb_antisym. Qed.

Lemma Forall2_dates_length (months : list json) (dates : list string) :
  Forall2 (fun month_data d => getitem month_data "date" = Ok (JStr d)) months dates ->
  List.length months = List.length dates.
Proof. induction 1; simpl; congruence. Qed.

(** X13. The name of the output files depends on the dates of the catalog,
    not on the order of its months. *)
Theorem output_filename_order_independent (months months' : list json)
    (dates dates' : list string) :
  Forall2 (fun month_data d => getitem month_data "date" = Ok (JStr d)) months dates ->
  Forall2 (fun month_data d => getitem month_data "date" = Ok (JStr d)) months' dates' ->
  Permutation dates dates' ->
  months <> [] ->
  output_filename (JArr months) = output_filename (JArr months')
  /\ exists name, output_filename (JArr months) = Ok name.
Proof.
  intros H H' Hp Hm.
  assert (months' <> []) as Hm'.
  { intros ->. apply Forall2_dates_length in H, H'.
    apply Permutation_length in Hp. destruct months; [congruence|].
    simpl in *. lia. }
  destruct (output_filename_spans months dates H Hm)
    as (lo & hi & E & Hlo & Hhi & Hb).
  destruct (output_filename_spans months' dates' H' Hm')
    as (lo' & hi' & E' & Hlo' & Hhi' & Hb').
  assert (lo = lo') as <-.
  { apply str_le_antisym.
    - apply Hb. eapply Permutation_in; [symmetry; exact Hp|exact Hlo'].
    - apply Hb'. eapply Permutation_in; [exact Hp|exact Hlo]. }
  assert (hi = hi') as <-.
  { apply str_le_antisym.
    - apply Hb'. eapply Permutation_in; [exact Hp|exact Hhi].
    - apply Hb. eapply Permutation_in; [symmetry; exact Hp|exact Hhi']. }
  split; [now rewrite E, E'|now exists ("ssd_" ++ lo ++ "-" ++ hi)%string].
Qed.

Lemma output_filename_prefix (available_data : json) (name : string) :
  output_filename available_data = Ok name ->
  exists rest, name = ("ssd_" ++ rest)%string.
Proof.
  unfold output_filename.
  destruct (iter available_data) as [months|]; [|discriminate].
  destruct (list_comp _ months) as [dates|]; [|discriminate].
  destruct (sorted dates) as [dates_found|]; [|discriminate].
  destruct (first_item dates_found) as [lo|]; [|discriminate].
  destruct (last_item dates_found) as [hi|]; [|discriminate].
  intros [= <-]. now eexists.
Qed.

(** ** What a run can write *)

Lemma adds_weaken {S A : Type} (P Q : event -> bool) (o : S -> list event)
    (c : M S A) :
  (forall ev, P ev = true -> Q ev = true) -> adds P o c -> adds Q o c.
Proof.
  intros HPQ Hc s. destruct (Hc s) as (evs & E & C).
  exists evs. split; [exact E|].
  rewrite forallb_forall in *. auto.
Qed.

Lemma quiet_adds_sound {S A : Type} (o : S -> list event) (c : M S A) :
  quiet o c -> adds sound_write o c.
Proof.
  apply (adds_weaken is_console sound_write). now intros [].
Qed.

Lemma adds_bind {S A B : Type} (P : event -> bool) (o : S -> list event)
    (c : M S A) (k : A -> M S B) :
  adds P o c -> (forall a, adds P o (k a)) -> adds P o (bind c k).
Proof.
  intros Hc Hk s. unfold bind.
  destruct (Hc s) as (e1 & E1 & C1).
  destruct (c s) as [s1 [a|e]]; simpl in *.
  - destruct (Hk a s1) as (e2 & E2 & C2).
    exists (e1 ++ e2). rewrite E2, E1, app_assoc, forallb_app, C1, C2. now split.
  - now exists e1.
Qed.

Lemma adds_bind_lift {S A B : Type} (P : event -> bool) (o : S -> list event)
    (r : result A) (k : A -> M S B) :
  (forall a, r = Ok a -> adds P o (k a)) -> adds P o (bind (lift r) k).
Proof.
  intros Hk s. unfold bind, lift. destruct r as [a|e].
  - now apply Hk.
  - exists []. simpl. now rewrite app_nil_r.
Qed.

Lemma print_summary_quiet (available_data : json) (total_requests total_records : nat)
    (saved_files : list string) :
  quiet out (print_summary available_data total_requests total_records saved_files).
Proof. unfold print_summary. repeat quiet_step. Qed.

Lemma prefix_empty (s : string) : String.prefix "" s = true.
Proof. now destruct s. Qed.

Lemma save_data_sound (records : list json) (rest : string)
    (save_json save_csv save_parquet : bool) :
  records <> [] ->
  adds sound_write out
    (save_data records ("data/stop_search_data/ssd_" ++ rest)
       save_json save_csv save_parquet).
Proof.
  intros Hr s.
  destruct save_json, save_csv, save_parquet;
    (eexists; split;
     [unfold save_data, bind, print, emit, modify, ret; simpl;
      rewrite <- ?app_assoc; simpl; reflexivity
     |destruct records; [congruence|];
      cbn; rewrite ?prefix_empty; reflexivity]).
Qed.

Lemma save_data_effects (records : list json) (output_base : string)
    (save_json save_csv save_parquet : bool) (w : world) :
  exists w' saved_files,
    save_data records output_base save_json save_csv save_parquet w =
      (w', Ok saved_files)
    /\ effects (out w') =
         effects (out w) ++
         (if save_json then [WriteJson (output_base ++ ".json") records] else []) ++
         (if save_csv then [WriteCsv (output_base ++ ".csv") records] else []) ++
         (if save_parquet then [WriteParquet (output_base ++ ".parquet") records]
          else [])
    /\ attempts w' = attempts w.
Proof.
  destruct save_json, save_csv, save_parquet;
    (do 2 eexists; split; [reflexivity|]; split;
     [run_effects; reflexivity|reflexivity]).
Qed.

Lemma effects_snoc (evs : list event) (ev : event) :
  effects (evs ++ [ev]) = effects evs ++ (if is_console ev then [] else [ev]).
Proof. rewrite effects_app. unfold effects. simpl. now destruct (is_console ev). Qed.

Lemma emit_run (ev : event) (w : world) :
  emit ev w = (mkWorld (attempts w) (out w ++ [ev]), Ok tt).
Proof. reflexivity. Qed.

Lemma lift_run {S A : Type} (a : A) (s : S) : lift (Ok a) s = (s, Ok a).
Proof. reflexivity. Qed.

Lemma runs_print (line : list piece) : runs (print line) tt [Print (line ++ [Lit nl])].
Proof. now intros w. Qed.

Lemma runs_emit (ev : event) : runs (emit ev) tt [ev].
Proof. now intros w. Qed.

Lemma runs_lift {A : Type} (a : A) : runs (lift (Ok a)) a [].
Proof. intros w. unfold lift. now rewrite app_nil_r; destruct w. Qed.

Lemma runs_bind {A B : Type} (c : M world A) (k : A -> M world B) (a : A) (b : B)
    (e1 e2 : list event) :
  runs c a e1 -> runs (k a) b e2 -> runs (bind c k) b (e1 ++ e2).
Proof.
  intros Hc Hk w. unfold bind. rewrite Hc, Hk. simpl. now rewrite app_assoc.
Qed.

Lemma print_run (line : list piece) (w : world) :
  print line w = (mkWorld (attempts w) (out w ++ [Print (line ++ [Lit nl])]), Ok tt).
Proof. reflexivity. Qed.

Lemma print_files_run (saved_files : list string) (w : world) :
  exists w',
    for_each saved_files (fun file => print [Lit "  - "; Lit file]) w = (w', Ok tt)
    /\ effects (out w') = effects (out w) /\ attempts w' = attempts w.
Proof.
  revert w. induction saved_files as [|file saved_files IH]; intros w; simpl.
  - now exists w.
  - rewrite (bind_ok _ _ w _ tt (print_run _ w)).
    destruct (IH (mkWorld (attempts w)
                    (out w ++ [Print ([Lit "  - "; Lit file] ++ [Lit nl])])))
      as (w' & E & F & A).
    exists w'. split; [exact E|]. split; [|exact A].
    rewrite F. cbn [out]. rewrite effects_app. cbn. apply app_nil_r.
Qed.

Lemma print_summary_run (available_data : json) (n total_requests total_records : nat)
    (saved_files : list string) (w : world) :
  len available_data = Ok n ->
  exists w',
    print_summary available_data total_requests total_records saved_files w =
      (w', Ok tt)
    /\ effects (out w') = effects (out w) /\ attempts w' = attempts w.
Proof.
  intros Hlen.
  destruct (print_summary_quiet available_data total_requests total_records
              saved_files w) as (evs & E & C).
  unfold print_summary in *.
  rewrite (bind_ok _ _ w _ tt (print_run _ w)) in *.
  rewrite (bind_ok _ _ _ _ tt (print_run _ _)) in *.
  rewrite (bind_ok _ _ _ _ tt (print_run _ _)) in *.
  match goal with
  | |- context [bind (lift _) _ ?w0] => set (w1 := w0) in *
  end.
  rewrite (bind_ok _ _ w1 w1 n) in * by (unfold lift; now rewrite Hlen).
  rewrite (bind_ok _ _ _ _ tt (print_run _ _)) in *.
  rewrite (bind_ok _ _ _ _ tt (print_run _ _)) in *.
  rewrite (bind_ok _ _ _ _ tt (print_run _ _)) in *.
  rewrite (bind_ok _ _ _ _ tt (print_run _ _)) in *.
  match goal with
  | |- context [bind (for_each _ _) _ ?w0] => set (w2 := w0) in *
  end.
  destruct (print_files_run saved_files w2) as (w3 & E3 & F3 & A3).
  rewrite (bind_ok _ _ w2 w3 tt E3) in *.
  rewrite print_run in *. cbn [fst] in E.
  eexists. split; [reflexivity|]. split.
  - rewrite E, effects_app, (effects_console evs C). apply app_nil_r.
  - cbn [attempts]. rewrite A3. reflexivity.
Qed.

Section MoreExport.

Variable strptime_Ym : string -> option datetime.
Variable http_dates : outcome.
Variable http_stops : nat -> json -> json -> outcome.
Variable output_dir_exists : bool.


Lemma main_export_run (a : args) (w w1 w2 : world)
    (start_date end_date : option datetime) (months : list json) (name : string)
    (recs : list json) (total answers : nat) :
  optional_date strptime_Ym (arg_start a) = Ok start_date ->
  optional_date strptime_Ym (arg_end a) = Ok end_date ->
  start_after_end start_date end_date = false ->
  fetch_available_dates strptime_Ym http_dates start_date end_date w =
    (w1, Ok (JArr months)) ->
  fetch_stops_data http_stops (JArr months) w1 = (w2, Ok (recs, total, answers)) ->
  recs <> [] -> months <> [] ->
  output_filename (JArr months) = Ok name ->
  main strptime_Ym http_dates http_stops output_dir_exists a w =
    (saved_files <-
       save_data recs (path_join "data/stop_search_data" name)
         (in_formats (arg_format a) [FmtJson; FmtAll])
         (in_formats (arg_format a) [FmtCsv; FmtAll])
         (in_formats (arg_format a) [FmtParquet; FmtAll]) ;;
     print_summary (JArr months) answers total saved_files)
    (after_makedirs output_dir_exists w2).
Proof.
  intros Hs He Hse Hf Hr Hrecs Hm Hname.
  unfold main.
  rewrite (bind_ok _ _ w w start_date) by (unfold lift; now rewrite Hs).
  rewrite (bind_ok _ _ w w end_date) by (unfold lift; now rewrite He).
  rewrite Hse.
  rewrite (bind_ok _ _ w w tt) by reflexivity.
  rewrite (bind_ok _ _ w w1 (JArr months)) by exact Hf.
  assert (truthy (JArr months) = true) as -> by now destruct months.
  cbn [negb].
  rewrite (bind_ok _ _ w1 w2 (recs, total, answers)) by exact Hr.
  assert (truthy (JArr recs) = true) as -> by now destruct recs.
  cbn [negb]. cbv beta iota zeta.
  rewrite (bind_ok _ _ w2 (after_makedirs output_dir_exists w2) tt).
  2: { unfold after_makedirs. destruct output_dir_exists; simpl; [reflexivity|].
       unfold bind, emit, print, emit, modify. simpl.
       now rewrite <- app_assoc. }
  rewrite (bind_ok _ _ _ (after_makedirs output_dir_exists w2) name)
    by (unfold lift; now rewrite Hname).
  reflexivity.
Qed.


(** X15. On a catalog of months with force lists, the earlier script ends
    normally whatever the stops requests give, and writes the JSON file and
    then the CSV file with the records collected, also when there is none;
    it writes no Parquet file, although its summary lists one. *)
Theorem data_collection_writes_json_and_csv (months : list json)
    (catalog : list (json * list json)) (w : world) :
  http_dates = Response 200 (Some (JArr months)) ->
  Forall2 month_entry months catalog ->
  let recs :=
    flat_map collected (requests_from http_stops (attempts w) (pairs catalog)) in
  exists w',
    data_collection http_dates http_stops w = (w', Ok tt)
    /\ effects (out w') =
         effects (out w) ++ [WriteJson OUTPUT_JSON recs; WriteCsv OUTPUT_CSV recs]
    /\ In (Print [Lit "  - Parquet: "; Lit OUTPUT_PARQUET; Lit nl]) (out w').
Proof.
  intros Hd H recs.
  unfold data_collection. rewrite Hd.
  rewrite (bind_ok _ _ w _ tt (print_run _ w)).
  match goal with
  | |- context [bind (lift _) _ ?w0] => set (w0' := w0)
  end.
  rewrite (bind_ok _ _ w0' w0' (JArr months)) by reflexivity.
  rewrite (bind_ok _ _ w0' w0' (List.length months)) by reflexivity.
  rewrite (bind_ok _ _ w0' _ tt (print_run _ w0')).
  match goal with
  | |- context [bind (scope _ _) _ ?w0] => set (w1 := w0)
  end.
  destruct (months_run http_stops months catalog w1 (mkLocals [] 0 0) H)
    as (w2 & E & _).
  assert (effects (out w2) = effects (out w)) as Hw2.
  { destruct (fetch_stops_data_quiet http_stops (JArr months) w1)
      as (e2 & E2 & C2).
    unfold fetch_stops_data, bind at 1, scope, bind at 1, lift at 1 in E2.
    cbn [iter] in E2. rewrite E in E2. unfold ret in E2. cbn [fst] in E2.
    rewrite E2, effects_app, (effects_console e2 C2), app_nil_r.
    subst w1 w0'. cbn [out]. rewrite !effects_snoc. cbn [is_console app].
    now rewrite !app_nil_r. }
  rewrite (bind_ok _ _ w1 w2
             (gather (mkLocals [] 0 0)
                (requests_from http_stops (attempts w1) (pairs catalog)), tt))
    by (unfold scope, bind, lift; cbn [iter]; now rewrite E).
  cbn [fst gather all_records total_records total_requests app].
  change (attempts w1) with (attempts w). fold recs.
  clearbody w1. clear E.
  match goal with
  | |- exists w', ?c w2 = _ /\ _ =>
      assert (exists evs,
                runs c tt evs
                /\ effects evs = [WriteJson OUTPUT_JSON recs; WriteCsv OUTPUT_CSV recs]
                /\ In (Print [Lit "  - Parquet: "; Lit OUTPUT_PARQUET; Lit nl]) evs)
        as (evs & R & F & P)
  end.
  { eexists. split.
    - repeat (eapply runs_bind;
              [first [apply runs_print|apply runs_emit|apply runs_lift]|]).
      apply runs_print.
    - split; [reflexivity|]. cbn [app In]. tauto. }
  rewrite (R w2). eexists. split; [reflexivity|]. cbn [out]. split.
  - now rewrite effects_app, Hw2, F.
  - apply in_or_app. now right.
Qed.

End MoreExport.

(** * Further properties of the catalog filter *)

Lemma dt_inverted (s e m : datetime) :
  dt_ltb e s = true -> dt_leb s m && dt_leb m e = false.
Proof.
  unfold dt_ltb, dt_leb.
  destruct (Z.ltb_spec (year e) (year s)), (Z.eqb_spec (year e) (year s)),
    (Z.ltb_spec (month e) (month s)),
    (Z.ltb_spec (year s) (year m)), (Z.eqb_spec (year s) (year m)),
    (Z.leb_spec (month s) (month m)),
    (Z.ltb_spec (year m) (year e)), (Z.eqb_spec (year m) (year e)),
    (Z.leb_spec (month m) (month e));
    simpl; try reflexivity; try discriminate; lia.
Qed.

Section MoreDates.

Variable strptime_Ym : string -> option datetime.
Variable http_dates : outcome.

(** X16. With a start after the end, [fetch_available_dates] keeps no month
    of a catalog whose dates parse. *)
Theorem inverted_bounds_give_empty_catalog (entries : list json)
    (start_date end_date : datetime) (w : world) :
  http_dates = Response 200 (Some (JArr entries)) ->
  Forall (fun month_data => month_of strptime_Ym month_data <> None) entries ->
  dt_ltb end_date start_date = true ->
  snd (fetch_available_dates strptime_Ym http_dates
         (Some start_date) (Some end_date) w) = Ok (JArr []).
Proof.
  intros Hd Hp Hlt.
  assert (filter (within strptime_Ym (Some start_date) (Some end_date)) entries = [])
    as Hnone.
  { clear Hp Hd. induction entries as [|md entries IH]; simpl; [reflexivity|].
    unfold within at 1. destruct (month_of strptime_Ym md) as [m|]; simpl.
    - now rewrite (dt_inverted start_date end_date m Hlt).
    - exact IH. }
  unfold fetch_available_dates. rewrite Hd.
  unfold bind at 1. unfold print at 1, emit, modify. simpl.
  unfold bind at 1. unfold lift at 1. simpl.
  unfold bind at 1 2 3. unfold lift at 1. simpl.
  rewrite (keep_months_run strptime_Ym (Some start_date) (Some end_date)
             entries [] Hp), Hnone.
  reflexivity.
Qed.

End MoreDates.

(** * The further properties on concrete runs *)

Lemma missing_date_aborts_fetch_witness :
  exists w',
    fetch_stops_data example_stops
      (JArr ([JObj [("date", JStr "2023-01");
                    ("stop-and-search", JArr [JStr "metropolitan"; JStr "kent"])]]
             ++ JObj [("stop-and-search", JArr [JStr "essex"])] :: []))
      start = (w', Raise KeyError)
    /\ attempts w' = 2.
Proof.
  apply (missing_date_aborts_fetch example_stops
           [JObj [("date", JStr "2023-01");
                  ("stop-and-search", JArr [JStr "metropolitan"; JStr "kent"])]]
           (JObj [("stop-and-search", JArr [JStr "essex"])]) []
           [(JStr "2023-01", [JStr "metropolitan"; JStr "kent"])] start KeyError).
  - repeat constructor.
  - reflexivity.
Defined.

Lemma non_array_body_adds_nothing_witness :
  exists w',
    fetch_force (fun _ _ _ => Response 200 (Some (JObj [("error", JStr "busy")])))
      (JStr "2023-01") (JStr "kent") (start, mkLocals [] 0 0) =
      ((w', mkLocals [] 0 1), Ok tt)
    /\ attempts w' = 1.
Proof.
  apply (non_array_body_adds_nothing
           (fun _ _ _ => Response 200 (Some (JObj [("error", JStr "busy")])))
           (JStr "2023-01") (JStr "kent") (Some (JObj [("error", JStr "busy")]))
           start (mkLocals [] 0 0)).
  - reflexivity.
  - intros items. discriminate.
Defined.

Lemma partial_body_appended_uncounted_witness :
  exists w',
    fetch_force
      (fun _ _ _ =>
         Response 200 (Some (JArr [JObj [("type", JNull)]; JInt 5; JObj []])))
      (JStr "2023-01") (JStr "kent") (start, mkLocals [] 0 0) =
      ((w', mkLocals [JObj [("type", JNull); ("date", JStr "2023-01");
                            ("force_id", JStr "kent")]] 0 1), Ok tt)
    /\ attempts w' = 1.
Proof.
  apply (partial_body_appended_uncounted
           (fun _ _ _ =>
              Response 200 (Some (JArr [JObj [("type", JNull)]; JInt 5; JObj []])))
           (JStr "2023-01") (JStr "kent") [[("type", JNull)]] (JInt 5) [JObj []]
           start (mkLocals [] 0 0)).
  - reflexivity.
  - reflexivity.
Defined.

Lemma total_records_at_most_records_witness :
  exists recs total answers,
    snd (fetch_stops_data example_stops (JArr example_months) start) =
      Ok (recs, total, answers)
    /\ total <= List.length recs.
Proof.
  destruct (total_records_at_most_records example_stops example_months
              example_catalog start example_months_entries)
    as (recs & total & answers & E & Hle & _).
  exists recs, total, answers. split; [exact E|exact Hle].
Defined.

Lemma total_requests_at_most_attempts_witness :
  exists recs total answers,
    snd (fetch_stops_data example_stops (JArr example_months) start) =
      Ok (recs, total, answers)
    /\ answers <= 2.
Proof.
  destruct (total_requests_at_most_attempts example_stops example_months
              example_catalog start example_months_entries)
    as (recs & total & answers & E & Hle & _).
  exists recs, total, answers. split; [exact E|exact Hle].
Defined.

Lemma empty_force_lists_issue_no_request_witness :
  exists w',
    fetch_stops_data example_stops
      (JArr [JObj [("date", JStr "2023-02"); ("stop-and-search", JArr [])];
             JObj [("date", JStr "2023-03")]]) start = (w', Ok ([], 0, 0))
    /\ attempts w' = 0.
Proof.
  apply (empty_force_lists_issue_no_request example_stops
           [JObj [("date", JStr "2023-02"); ("stop-and-search", JArr [])];
            JObj [("date", JStr "2023-03")]]
           [(JStr "2023-02", []); (JStr "2023-03", [])] start).
  - repeat constructor.
  - repeat constructor.
Defined.

Lemma one_pause_per_request_witness :
  pauses (out (fst (fetch_stops_data example_stops (JArr example_months) start))) = 2.
Proof.
  apply (one_pause_per_request example_stops example_months example_catalog start
           example_months_entries).
Defined.

Lemma main_rejects_start_after_end_witness :
  main strptime_digits example_dates example_stops false
    (mkArgs FmtCsv (Some "2024-02") (Some "2024-01")) start =
    (mkWorld 0 [Usage "La fecha de inicio no puede ser posterior a la fecha de fin"],
     Raise (SystemExit 2)).
Proof.
  apply (main_rejects_start_after_end strptime_digits example_dates example_stops
           false (mkArgs FmtCsv (Some "2024-02") (Some "2024-01")) start
           "2024-02" "2024-01" (mkDate 2024 2) (mkDate 2024 1));
    try reflexivity; discriminate.
Defined.

Lemma main_rejects_malformed_bound_witness :
  main strptime_digits example_dates example_stops false
    (mkArgs FmtCsv (Some "2024-13") None) start = (start, Raise ArgumentTypeError).
Proof.
  apply (main_rejects_malformed_bound strptime_digits example_dates example_stops
           false (mkArgs FmtCsv (Some "2024-13") None) start).
  left. exists "2024-13". repeat split. discriminate.
Defined.

Lemma catalog_error_status_gives_no_data_witness :
  snd (fetch_available_dates strptime_digits (Response 503 None)
         (Some (mkDate 2023 1)) None start) = Ok (JArr [])
  /\ exists evs,
       main strptime_digits (Response 503 None) example_stops false
         (mkArgs FmtAll (Some "2023-01") None) start =
         (mkWorld 0
            (out start ++ evs ++
             [Print [Lit "No hay datos disponibles para el rango de fechas especificado";
                     Lit nl]]),
          Ok tt)
       /\ forallb is_console evs = true.
Proof.
  apply (catalog_error_status_gives_no_data strptime_digits (Response 503 None)
           example_stops false (mkArgs FmtAll (Some "2023-01") None) start
           503%Z None (Some (mkDate 2023 1)) None);
    try reflexivity; discriminate.
Defined.

Lemma catalog_failure_propagates_witness :
  main strptime_digits TransportError example_stops false (no_bounds FmtAll) start =
    (mkWorld 0 [Print [Lit "Obtaining available dates and forces..."; Lit nl]],
     Raise RequestException).
Proof.
  apply (catalog_failure_propagates strptime_digits TransportError example_stops
           false (no_bounds FmtAll) start RequestException None None);
    try reflexivity.
  left. split; reflexivity.
Defined.

Lemma output_filename_order_independent_witness :
  output_filename (JArr example_months) = output_filename (JArr (rev example_months))
  /\ exists name, output_filename (JArr example_months) = Ok name.
Proof.
  apply (output_filename_order_independent example_months (rev example_months)
           ["2023-01"; "2023-02"] ["2023-02"; "2023-01"]).
  - repeat constructor.
  - repeat constructor.
  - apply perm_swap.
  - discriminate.
Defined.


Lemma data_collection_writes_json_and_csv_witness :
  exists w',
    data_collection example_dates no_transport start = (w', Ok tt)
    /\ effects (out w') = [WriteJson OUTPUT_JSON []; WriteCsv OUTPUT_CSV []].
Proof.
  destruct (data_collection_writes_json_and_csv example_dates no_transport
              example_months example_catalog start eq_refl example_months_entries)
    as (w' & E & F & _).
  exists w'. split; [exact E|exact F].
Defined.

Lemma inverted_bounds_give_empty_catalog_witness :
  snd (fetch_available_dates strptime_digits example_dates
         (Some (mkDate 2023 2)) (Some (mkDate 2023 1)) start) = Ok (JArr []).
Proof.
  apply (inverted_bounds_give_empty_catalog strptime_digits example_dates
           example_months (mkDate 2023 2) (mkDate 2023 1) start).
  - reflexivity.
  - repeat constructor; discriminate.
  - reflexivity.
Defined.
